(** * Personal-Asset-Management: the derived-portfolio-metrics engine

    A shallow embedding of the computations of [src/AssetPortfolioApp.tsx]
    (balances, valuations, totals per asset type, allocation, drift,
    rebalancing suggestion, goal progress, reports) and of the state
    mutators.

    The file has two models of the numbers.

    In the first one a JavaScript number is a [number]: a finite value is
    an exact rational ([Qc]), and the three special values NaN, +Infinity
    and -Infinity follow the IEEE rules for special values (Infinity -
    Infinity, 0 * Infinity and 0 / 0 are NaN, x / 0 is infinite for
    x <> 0, every comparison with NaN is false).  Rounding, overflow of
    finite values and the sign of zero are outside this model; the
    enumerations [CURRENCIES], [ASSET_TYPES] and [TX_TYPES] are closed
    types, and an object used as a dictionary is a finite map without
    inherited keys.  It carries the properties that compare numbers,
    rearrange lists or update the state, which do not depend on how a sum
    or a quotient is rounded.

    In the second one, the module [B64], a number is an IEEE 754 binary64
    value and the records and dictionaries are as the code has them.  It
    carries the properties of the balances, the allocation and the
    derived outputs that depend on rounding, on overflow or on the shape
    of the input. *)

From Stdlib Require Import QArith Qfield Qpower Qcanon SpecFloat DecimalString.
From stdpp Require Import base numbers list strings gmap fin_maps sorting.

Local Open Scope Qc_scope.

(** ** JavaScript numbers *)

Inductive number : Type :=
  | Fin (q : Qc)
  | PInf
  | NInf
  | NaN.

#[global] Instance number_eq_dec : EqDecision number.
Proof. solve_decision. Defined.

Definition num_neg (x : number) : number :=
  match x with
  | Fin q => Fin (- q)
  | PInf => NInf
  | NInf => PInf
  | NaN => NaN
  end.

Definition num_add (x y : number) : number :=
  match x, y with
  | NaN, _ | _, NaN => NaN
  | Fin a, Fin b => Fin (a + b)
  | PInf, NInf | NInf, PInf => NaN
  | PInf, _ | _, PInf => PInf
  | NInf, _ | _, NInf => NInf
  end.

Definition num_sub (x y : number) : number := num_add x (num_neg y).

(** Sign of a rational as a comparison with zero. *)
Definition Qc_sgn (q : Qc) : comparison := q ?= 0.

Definition num_mul (x y : number) : number :=
  match x, y with
  | NaN, _ | _, NaN => NaN
  | Fin a, Fin b => Fin (a * b)
  | Fin a, PInf | PInf, Fin a =>
      match Qc_sgn a with Eq => NaN | Gt => PInf | Lt => NInf end
  | Fin a, NInf | NInf, Fin a =>
      match Qc_sgn a with Eq => NaN | Gt => NInf | Lt => PInf end
  | PInf, PInf | NInf, NInf => PInf
  | PInf, NInf | NInf, PInf => NInf
  end.

Definition num_div (x y : number) : number :=
  match x, y with
  | NaN, _ | _, NaN => NaN
  | Fin a, Fin b =>
      match Qc_sgn b with
      | Eq => match Qc_sgn a with Eq => NaN | Gt => PInf | Lt => NInf end
      | _ => Fin (a / b)
      end
  | Fin _, (PInf | NInf) => Fin 0
  | (PInf | NInf), (PInf | NInf) => NaN
  | PInf, Fin b => match Qc_sgn b with Lt => NInf | _ => PInf end
  | NInf, Fin b => match Qc_sgn b with Lt => PInf | _ => NInf end
  end.

(** [Math.abs], [Math.sign], [Math.min]. *)
Definition Math_abs (x : number) : number :=
  match x with
  | Fin q => Fin (if decide (q < 0) then - q else q)
  | PInf | NInf => PInf
  | NaN => NaN
  end.

Definition Math_sign (x : number) : number :=
  match x with
  | Fin q => match Qc_sgn q with Eq => Fin 0 | Gt => Fin 1 | Lt => Fin (- 1) end
  | PInf => Fin 1
  | NInf => Fin (- 1)
  | NaN => NaN
  end.

(** [x > y] and [x >= y]: false as soon as one side is NaN. *)
Definition num_gt (x y : number) : bool :=
  match x, y with
  | NaN, _ | _, NaN => false
  | Fin a, Fin b => bool_decide (b < a)
  | PInf, PInf | NInf, NInf => false
  | PInf, _ | _, NInf => true
  | _, PInf | NInf, _ => false
  end.

Definition num_ge (x y : number) : bool :=
  match x, y with
  | NaN, _ | _, NaN => false
  | Fin a, Fin b => bool_decide (b ≤ a)
  | PInf, _ | _, NInf => true
  | _, PInf | NInf, _ => false
  end.

Definition num_lt (x y : number) : bool := num_gt y x.

Definition Math_min (x y : number) : number :=
  match x, y with
  | NaN, _ | _, NaN => NaN
  | _, _ => if num_gt x y then y else x
  end.

Definition Number_isFinite (x : number) : bool :=
  match x with Fin _ => true | _ => false end.

(** [!x] on a number: zero and NaN are falsy. *)
Definition num_falsy (x : number) : bool :=
  match x with
  | Fin q => bool_decide (q = 0)
  | NaN => true
  | PInf | NInf => false
  end.

(** ** Untyped field values

    The records are [any] in the source; a numeric field can hold a
    number, be missing ([undefined]), or be [null] or a boolean after an
    import.  [Number] is the coercion the source applies to them.  (A field
    holding a string is represented by the number [Number] parses it to.) *)

Inductive jsval : Type :=
  | JNum (x : number)
  | JUndefined
  | JNull
  | JBool (b : bool).

Definition Number (v : jsval) : number :=
  match v with
  | JNum x => x
  | JUndefined => NaN
  | JNull => Fin 0
  | JBool true => Fin 1
  | JBool false => Fin 0
  end.

(** [function ensureNumber(n: any, fallback = 0)] *)
Definition ensureNumber_or (n : jsval) (fallback : number) : number :=
  let x := Number n in
  if Number_isFinite x then x else fallback.

Definition ensureNumber (n : jsval) : number := ensureNumber_or n (Fin 0).

(** [function sum(arr: number[])] *)
Definition sum (arr : list number) : number :=
  fold_left (fun a b => num_add a (if Number_isFinite b then b else Fin 0)) arr (Fin 0).

(** ** Record types *)

Inductive Currency : Type := KRW | USD.

Inductive AssetType : Type :=
  | Cash | Stock | ETF | Bond | Crypto | RealEstate | Other.

Inductive TxType : Type :=
  | Deposit | Withdraw | Buy | Sell | Income | Expense.

Definition ASSET_TYPES : list AssetType :=
  [Cash; Stock; ETF; Bond; Crypto; RealEstate; Other].

#[global] Instance Currency_eq_dec : EqDecision Currency.
Proof. solve_decision. Defined.
#[global] Instance AssetType_eq_dec : EqDecision AssetType.
Proof. solve_decision. Defined.
#[global] Instance TxType_eq_dec : EqDecision TxType.
Proof. solve_decision. Defined.

(** Position of an asset type in [ASSET_TYPES]. *)
Definition type_index (t : AssetType) : nat :=
  match t with
  | Cash => 0 | Stock => 1 | ETF => 2 | Bond => 3
  | Crypto => 4 | RealEstate => 5 | Other => 6
  end.

Definition type_of_index (n : nat) : AssetType :=
  match n with
  | 0 => Cash | 1 => Stock | 2 => ETF | 3 => Bond
  | 4 => Crypto | 5 => RealEstate | _ => Other
  end%nat.

#[global] Instance AssetType_countable : Countable AssetType.
Proof. refine (inj_countable' type_index type_of_index _). by intros []. Defined.

Record Account : Type := mkAccount {
  a_id : string;
  a_name : string;
  a_type : AssetType;
  a_currency : Currency;
  a_openingBalance : jsval;
}.

Record Transaction : Type := mkTransaction {
  t_id : string;
  t_date : string;
  t_accountId : string;
  t_type : TxType;
  t_amount : jsval;
  t_fee : jsval;
  t_tax : jsval;
  t_note : string;
}.

Record Position : Type := mkPosition {
  p_id : string;
  p_accountId : string;
  p_symbol : string;
  p_name : string;
  p_assetType : AssetType;
  p_qty : jsval;
  p_avgPrice : jsval;
  p_currency : Currency;
  p_lastPrice : jsval;
}.

Record Goal : Type := mkGoal {
  g_id : string;
  g_name : string;
  g_target : number;
  g_deadline : string;
  g_accountIds : list string;
  g_note : string;
}.

Inductive RiskProfile : Type := Conservative | Neutral | Aggressive.

Record Settings : Type := mkSettings {
  baseCurrency : Currency;
  usdKrw : jsval;
  riskProfile : RiskProfile;
  showAdvanced : bool;
}.

(** [allocation] is an object keyed by asset type; an absent key reads as
    [undefined].  [driftThreshold] may be absent as well. *)
Record Targets : Type := mkTargets {
  allocation : gmap AssetType number;
  driftThreshold : option number;
}.

Record State : Type := mkState {
  settings : Settings;
  accounts : list Account;
  transactions : list Transaction;
  positions : list Position;
  goals : list Goal;
  targets : Targets;
}.

(** ** Derived data *)

(** [fx.USD_KRW] *)
Definition USD_KRW (s : Settings) : number :=
  ensureNumber_or (usdKrw s) (Fin (Qc_of_Z 1350)).

(** [function toBase(amount, currency)] *)
Definition toBase (s : Settings) (amount : number) (currency : Currency) : number :=
  if decide (baseCurrency s = currency) then amount
  else if decide (currency = USD ∧ baseCurrency s = KRW) then num_mul amount (USD_KRW s)
  else if decide (currency = KRW ∧ baseCurrency s = USD) then num_div amount (USD_KRW s)
  else amount.

(** Reading a key of [flows] inside an arithmetic expression: an absent
    key is [undefined], which arithmetic coerces to NaN. *)
Definition flows_get (flows : gmap string number) (k : string) : number :=
  default NaN (flows !! k).

(** [!flows[k]]: true when the key is absent or holds 0 or NaN. *)
Definition flows_falsy (flows : gmap string number) (k : string) : bool :=
  match flows !! k with
  | None => true
  | Some v => num_falsy v
  end.

Definition is_credit (k : TxType) : bool :=
  match k with Deposit | Income | Sell => true | _ => false end.

Definition is_debit (k : TxType) : bool :=
  match k with Withdraw | Expense | Buy => true | _ => false end.

(** [amt] of the loop body of [cashFlows]. *)
Definition tx_amt (t : Transaction) : number :=
  num_sub (num_sub (ensureNumber (t_amount t)) (ensureNumber (t_fee t)))
          (ensureNumber (t_tax t)).

(** One iteration of the loop over [state.transactions]. *)
Definition cashFlows_step (flows : gmap string number) (t : Transaction)
  : gmap string number :=
  let s := Math_sign (Fin 1) in
  let amt := tx_amt t in
  let k := t_accountId t in
  let flows1 := if flows_falsy flows k then <[k := Fin 0]> flows else flows in
  let flows2 :=
    if is_credit (t_type t)
    then <[k := num_add (flows_get flows1 k) (num_mul amt s)]> flows1
    else flows1 in
  if is_debit (t_type t)
  then <[k := num_sub (flows_get flows2 k) (num_mul amt s)]> flows2
  else flows2.

(** The loop over [state.accounts]. *)
Definition cashFlows_init (accs : list Account) : gmap string number :=
  fold_left (fun flows a => <[a_id a := ensureNumber (a_openingBalance a)]> flows)
            accs ∅.

Definition cashFlows (accs : list Account) (txs : list Transaction)
  : gmap string number :=
  fold_left cashFlows_step txs (cashFlows_init accs).

(** An account together with its derived [balance] and [balanceBase]. *)
Record AccountBalance : Type := mkAccountBalance {
  ab_account : Account;
  balance : number;
  balanceBase : number;
}.

(** [ensureNumber(cashFlows[a.id])]: an absent key is [undefined]. *)
Definition flows_val (flows : gmap string number) (k : string) : jsval :=
  match flows !! k with Some v => JNum v | None => JUndefined end.

(** [ensureNumber(cashFlows[a.id])] *)
Definition balance_of (flows : gmap string number) (a : Account) : number :=
  ensureNumber (flows_val flows (a_id a)).

Definition accountBalances (st : State) : list AccountBalance :=
  let flows := cashFlows (accounts st) (transactions st) in
  map (fun a =>
         {| ab_account := a;
            balance := balance_of flows a;
            balanceBase := toBase (settings st) (balance_of flows a) (a_currency a) |})
      (accounts st).

(** A position together with its valuation. *)
Record PositionMV : Type := mkPositionMV {
  pv_position : Position;
  marketValue : number;
  marketValueBase : number;
  pnl : number;
  pnlPct : number;
}.

Definition hundred : number := Fin (Qc_of_Z 100).

Definition valuation (s : Settings) (p : Position) : PositionMV :=
  {| pv_position := p;
     marketValue := num_mul (ensureNumber (p_qty p)) (ensureNumber (p_lastPrice p));
     marketValueBase :=
       toBase s (num_mul (ensureNumber (p_qty p)) (ensureNumber (p_lastPrice p)))
              (p_currency p);
     pnl := num_mul (num_sub (ensureNumber (p_lastPrice p)) (ensureNumber (p_avgPrice p)))
                    (ensureNumber (p_qty p));
     pnlPct := num_mul (num_sub (num_div (ensureNumber (p_lastPrice p))
                                         (ensureNumber (p_avgPrice p)))
                                (Fin 1))
                       hundred |}.

Definition positionsMV (st : State) : list PositionMV :=
  map (valuation (settings st)) (positions st).

(** [totals[t] = (totals[t] ?? 0) + x] *)
Definition totals_add (totals : gmap AssetType number) (t : AssetType) (x : number)
  : gmap AssetType number :=
  <[t := num_add (default (Fin 0) (totals !! t)) x]> totals.

Definition totalsByType (st : State) : gmap AssetType number :=
  let totals1 :=
    fold_left (fun totals a => totals_add totals (a_type (ab_account a)) (balanceBase a))
              (accountBalances st) ∅ in
  fold_left (fun totals p => totals_add totals (p_assetType (pv_position p)) (marketValueBase p))
            (positionsMV st) totals1.

(** [Object.values]: the values of the keys that are present.  ([sum] does
    not depend on their order, see [sum_Permutation].) *)
Definition Object_values {K} `{Countable K} {V} (m : gmap K V) : list V :=
  (map_to_list m).*2.

Definition totalAssetsBase (st : State) : number :=
  sum (Object_values (totalsByType st)).

(** The body of the loop of [allocationActual] for one asset type. *)
Definition allocation_of (totals : gmap AssetType number) (total : number) (t : AssetType)
  : number :=
  let v := default (Fin 0) (totals !! t) in
  if num_gt total (Fin 0) then num_mul (num_div v total) hundred else Fin 0.

Definition computeAllocation (totals : gmap AssetType number) (total : number)
  : gmap AssetType number :=
  fold_left (fun obj t => <[t := allocation_of totals total t]> obj) ASSET_TYPES ∅.

Definition allocationActual (st : State) : gmap AssetType number :=
  computeAllocation (totalsByType st) (totalAssetsBase st).

(** ** Drift *)

Record DriftEntry : Type := mkDriftEntry {
  d_type : AssetType;
  d_target : number;
  d_actual : number;
  d_diff : number;
}.

(** [Array.prototype.sort(comparefn)]: a stable sort; [comparefn(a, b) > 0]
    places [b] before [a], any other result (negative, zero, NaN) keeps
    [a] before [b]. *)
Fixpoint sort_insert {A} (comparefn : A -> A -> number) (x : A) (l : list A) : list A :=
  match l with
  | [] => [x]
  | y :: l' =>
      if num_gt (comparefn x y) (Fin 0)
      then y :: sort_insert comparefn x l'
      else x :: l
  end.

Definition Array_sort {A} (comparefn : A -> A -> number) (l : list A) : list A :=
  foldr (sort_insert comparefn) [] l.

Definition drift_entry (target actual : gmap AssetType number) (t : AssetType)
  : DriftEntry :=
  let tg := default (Fin 0) (target !! t) in
  let ac := default (Fin 0) (actual !! t) in
  {| d_type := t; d_target := tg; d_actual := ac; d_diff := num_sub ac tg |}.

Definition by_abs_diff (a b : DriftEntry) : number :=
  num_sub (Math_abs (d_diff b)) (Math_abs (d_diff a)).

Definition computeDrift (target actual : gmap AssetType number) : list DriftEntry :=
  Array_sort by_abs_diff (map (drift_entry target actual) ASSET_TYPES).

Definition drift (st : State) : list DriftEntry :=
  computeDrift (allocation (targets st)) (allocationActual st).

(** [Math.abs(d.diff) >= (state.targets.driftThreshold ?? 5)] *)
Definition alerting (threshold : option number) (d : DriftEntry) : bool :=
  num_ge (Math_abs (d_diff d)) (default (Fin (Qc_of_Z 5)) threshold).

Definition rebalanceAlerts (st : State) : list DriftEntry :=
  List.filter (alerting (driftThreshold (targets st))) (drift st).

(** ** Mutators *)

Definition removeAccount (id : string) (s : State) : State :=
  {| settings := settings s;
     accounts := List.filter (fun a => bool_decide (a_id a ≠ id)) (accounts s);
     transactions := List.filter (fun t => bool_decide (t_accountId t ≠ id)) (transactions s);
     positions := List.filter (fun p => bool_decide (p_accountId p ≠ id)) (positions s);
     goals := goals s;
     targets := targets s |}.

(** What the application shows through [alert].  The suggestion carries
    the values the message is built from. *)
Inductive Notification : Type :=
  | ParseFailed
  | NoSuggestion
  | Suggestion (from to : AssetType) (movePct moveAmount : number).

Section Importing.
(** [JSON.parse] applied to the text of the file: [None] when it throws.
    A document that parses becomes the state as it is. *)
Variable JSON_parse : string -> option State.

(** [reader.onload] of [importJSON]: the new state and the alerts shown. *)
Definition importJSON (st : State) (text : string) : State * list Notification :=
  match JSON_parse text with
  | Some next => (next, [])
  | None => (st, [ParseFailed])
  end.
End Importing.

(** ** Goals *)

Record Progress : Type := mkProgress { val : number; pct : number }.

Definition progressFor (st : State) (goal : Goal) : Progress :=
  let linked :=
    List.filter (fun a => bool_decide (a_id (ab_account a) ∈ g_accountIds goal))
                (accountBalances st) in
  let v := sum (map balanceBase linked) in
  {| val := v;
     pct := if num_gt (g_target goal) (Fin 0)
            then num_mul (num_div v (g_target goal)) hundred
            else Fin 0 |}.

(** ** Rebalancing suggestion *)

Definition most_overweight (dr : list DriftEntry) : option DriftEntry :=
  head (Array_sort (fun a b => num_sub (d_diff b) (d_diff a))
                   (List.filter (fun d => num_gt (d_diff d) (Fin 0)) dr)).

Definition most_underweight (dr : list DriftEntry) : option DriftEntry :=
  head (Array_sort (fun a b => num_sub (d_diff a) (d_diff b))
                   (List.filter (fun d => num_lt (d_diff d) (Fin 0)) dr)).

(** [function suggestRebalance(assetType)], reading [drift] and
    [totalAssetsBase]; the argument is not used by the body. *)
Definition suggestRebalance (dr : list DriftEntry) (total : number) (assetType : AssetType)
  : Notification :=
  match most_overweight dr, most_underweight dr with
  | Some over, Some under =>
      let movePct := Math_min (d_diff over) (num_neg (d_diff under)) in
      let moveAmount := num_mul total (num_div movePct hundred) in
      Suggestion (d_type over) (d_type under) movePct moveAmount
  | _, _ => NoSuggestion
  end.


(** ** The other mutators

    [uid()] draws a random id; the mutators take it as an argument.  The
    payload of a form carries no id of its own: it is given as a record
    whose id field is replaced by the generated one. *)

Definition with_a_id (id : string) (a : Account) : Account :=
  {| a_id := id; a_name := a_name a; a_type := a_type a;
     a_currency := a_currency a; a_openingBalance := a_openingBalance a |}.

Definition with_t_id (id : string) (t : Transaction) : Transaction :=
  {| t_id := id; t_date := t_date t; t_accountId := t_accountId t;
     t_type := t_type t; t_amount := t_amount t; t_fee := t_fee t;
     t_tax := t_tax t; t_note := t_note t |}.

Definition with_p_id (id : string) (p : Position) : Position :=
  {| p_id := id; p_accountId := p_accountId p; p_symbol := p_symbol p;
     p_name := p_name p; p_assetType := p_assetType p; p_qty := p_qty p;
     p_avgPrice := p_avgPrice p; p_currency := p_currency p;
     p_lastPrice := p_lastPrice p |}.

Definition with_g_id (id : string) (g : Goal) : Goal :=
  {| g_id := id; g_name := g_name g; g_target := g_target g;
     g_deadline := g_deadline g; g_accountIds := g_accountIds g;
     g_note := g_note g |}.

(** [{ ...s, accounts: ... }] and the like. *)
Definition set_accounts (l : list Account) (s : State) : State :=
  {| settings := settings s; accounts := l; transactions := transactions s;
     positions := positions s; goals := goals s; targets := targets s |}.

Definition set_transactions (l : list Transaction) (s : State) : State :=
  {| settings := settings s; accounts := accounts s; transactions := l;
     positions := positions s; goals := goals s; targets := targets s |}.

Definition set_positions (l : list Position) (s : State) : State :=
  {| settings := settings s; accounts := accounts s; transactions := transactions s;
     positions := l; goals := goals s; targets := targets s |}.

Definition set_goals (l : list Goal) (s : State) : State :=
  {| settings := settings s; accounts := accounts s; transactions := transactions s;
     positions := positions s; goals := l; targets := targets s |}.

Definition addAccount (uid : string) (payload : Account) (s : State) : State :=
  set_accounts (accounts s ++ [with_a_id uid payload]) s.

Definition addTransaction (uid : string) (payload : Transaction) (s : State) : State :=
  set_transactions (transactions s ++ [with_t_id uid payload]) s.

Definition removeTransaction (id : string) (s : State) : State :=
  set_transactions (List.filter (fun t => bool_decide (t_id t ≠ id)) (transactions s)) s.

Definition addPosition (uid : string) (payload : Position) (s : State) : State :=
  set_positions (positions s ++ [with_p_id uid payload]) s.

(** The second argument of [updatePosition]: the fields it carries replace
    those of the position ([{ ...p, ...patch }]). *)
Record PositionPatch : Type := mkPositionPatch {
  pp_id : option string;
  pp_accountId : option string;
  pp_symbol : option string;
  pp_name : option string;
  pp_assetType : option AssetType;
  pp_qty : option jsval;
  pp_avgPrice : option jsval;
  pp_currency : option Currency;
  pp_lastPrice : option jsval;
}.

Definition apply_patch (p : Position) (patch : PositionPatch) : Position :=
  {| p_id := default (p_id p) (pp_id patch);
     p_accountId := default (p_accountId p) (pp_accountId patch);
     p_symbol := default (p_symbol p) (pp_symbol patch);
     p_name := default (p_name p) (pp_name patch);
     p_assetType := default (p_assetType p) (pp_assetType patch);
     p_qty := default (p_qty p) (pp_qty patch);
     p_avgPrice := default (p_avgPrice p) (pp_avgPrice patch);
     p_currency := default (p_currency p) (pp_currency patch);
     p_lastPrice := default (p_lastPrice p) (pp_lastPrice patch) |}.

Definition updatePosition (id : string) (patch : PositionPatch) (s : State) : State :=
  set_positions
    (map (fun p => if decide (p_id p = id) then apply_patch p patch else p) (positions s)) s.

Definition removePosition (id : string) (s : State) : State :=
  set_positions (List.filter (fun p => bool_decide (p_id p ≠ id)) (positions s)) s.

Definition addGoal (uid : string) (payload : Goal) (s : State) : State :=
  set_goals (goals s ++ [with_g_id uid payload]) s.

Definition removeGoal (id : string) (s : State) : State :=
  set_goals (List.filter (fun g => bool_decide (g_id g ≠ id)) (goals s)) s.

(** ** Lookup of accounts by id *)

(** [Object.fromEntries(state.accounts.map(a => [a.id, a]))]: a later
    entry replaces an earlier one with the same key. *)
Definition accountsById (accs : list Account) : gmap string Account :=
  fold_left (fun obj a => <[a_id a := a]> obj) accs ∅.

(** [acc?.currency ?? state.settings.baseCurrency] for the account a
    transaction refers to. *)
Definition tx_currency (st : State) (t : Transaction) : Currency :=
  match accountsById (accounts st) !! t_accountId t with
  | Some acc => a_currency acc
  | None => baseCurrency (settings st)
  end.

(** [t.date.slice(0, 7)] *)
Definition tx_month (t : Transaction) : string := String.substring 0 7 (t_date t).

(** ** Dashboard: the data of the pie chart *)

Definition Math_max (x y : number) : number :=
  match x, y with
  | NaN, _ | _, NaN => NaN
  | _, _ => if num_gt x y then x else y
  end.

Record Slice : Type := mkSlice { slice_name : AssetType; slice_value : number }.

(** [ASSET_TYPES.map(t => ({ name: t, value: Math.max(0, totalsByType[t] ?? 0) }))
    .filter(d => d.value > 0)] *)
Definition allocationData (st : State) : list Slice :=
  List.filter (fun d => num_gt (slice_value d) (Fin 0))
    (map (fun t => {| slice_name := t;
                      slice_value := Math_max (Fin 0)
                                       (default (Fin 0) (totalsByType st !! t)) |})
         ASSET_TYPES).

(** ** Reports: income and expense per month *)

Record MonthRow : Type := mkMonthRow { income : number; expense : number }.

(** [monthlyRows] keeps its keys in the order they were first written
    ([Object.entries] lists them in that order; month keys are not array
    indices): an association list. *)
Fixpoint rows_update (m : string) (f : MonthRow -> MonthRow)
         (rows : list (string * MonthRow)) : list (string * MonthRow) :=
  match rows with
  | [] => []
  | (k, r) :: rows' =>
      if decide (k = m) then (k, f r) :: rows' else (k, r) :: rows_update m f rows'
  end.

Definition rows_has (m : string) (rows : list (string * MonthRow)) : bool :=
  bool_decide (m ∈ rows.*1).

(** One iteration of the loop of [ReportsView]. *)
Definition monthlyRows_step (st : State) (rows : list (string * MonthRow))
           (t : Transaction) : list (string * MonthRow) :=
  let m := tx_month t in
  let rows1 := if rows_has m rows then rows
               else rows ++ [(m, {| income := Fin 0; expense := Fin 0 |})] in
  let baseAmt := toBase (settings st) (ensureNumber (t_amount t)) (tx_currency st t) in
  let rows2 :=
    if is_credit (t_type t)
    then rows_update m (fun r => {| income := num_add (income r) baseAmt;
                                    expense := expense r |}) rows1
    else rows1 in
  if is_debit (t_type t)
  then rows_update m (fun r => {| income := income r;
                                  expense := num_add (expense r) baseAmt |}) rows2
  else rows2.

Definition monthlyRows (st : State) : list (string * MonthRow) :=
  fold_left (monthlyRows_step st) (transactions st) [].

Record ReportRow : Type := mkReportRow {
  rr_month : string;
  rr_income : number;
  rr_expense : number;
}.

Section Locale.
(** [a.localeCompare(b)]: negative, zero or positive; it depends on the
    locale of the browser. *)
Variable localeCompare : string -> string -> number.

(** [Object.entries(monthlyRows).sort(...).map(...)] *)
Definition monthly (st : State) : list ReportRow :=
  map (fun e => {| rr_month := e.1; rr_income := income e.2; rr_expense := expense e.2 |})
      (Array_sort (fun a b => localeCompare a.1 b.1) (monthlyRows st)).

(** ** Net worth per month *)

(** [JSON.parse(JSON.stringify(v))] on a numeric field: NaN and the
    infinities are written as [null]. *)
Definition deepClone_val (v : jsval) : jsval :=
  match v with
  | JNum (Fin q) => JNum (Fin q)
  | JNum _ => JNull
  | JUndefined => JUndefined
  | JNull => JNull
  | JBool b => JBool b
  end.

Definition deepClone_tx (t : Transaction) : Transaction :=
  {| t_id := t_id t; t_date := t_date t; t_accountId := t_accountId t;
     t_type := t_type t; t_amount := deepClone_val (t_amount t);
     t_fee := deepClone_val (t_fee t); t_tax := deepClone_val (t_tax t);
     t_note := t_note t |}.

(** The labels [YYYY-MM] the [Date] loop pushes: from the month of the
    given date through the current month (none when the date does not
    parse). *)
Variable monthsFrom : string -> list string.

(** [delta] of one transaction in the loop of [netWorthSeries]. *)
Definition tx_delta (st : State) (t : Transaction) : number :=
  let baseAmt := toBase (settings st) (tx_amt t) (tx_currency st t) in
  let delta1 := if is_credit (t_type t) then baseAmt else Fin 0 in
  if is_debit (t_type t) then num_neg baseAmt else delta1.

Record SeriesPoint : Type := mkSeriesPoint { sp_month : string; cash : number }.

(** [data[data.length - 1].cash += positionsBase] *)
Definition bump_last (x : number) (data : list SeriesPoint) : list SeriesPoint :=
  match reverse data with
  | [] => []
  | p :: before =>
      reverse before ++ [{| sp_month := sp_month p; cash := num_add (cash p) x |}]
  end.

Definition series_step (monthlyMap : gmap string number)
           (acc : number * list SeriesPoint) (m : string) : number * list SeriesPoint :=
  let running := num_add acc.1 (default (Fin 0) (monthlyMap !! m)) in
  (running, acc.2 ++ [{| sp_month := m; cash := running |}]).

Definition netWorthSeries (st : State) : list SeriesPoint :=
  let txs := Array_sort (fun a b => localeCompare (t_date a) (t_date b))
                        (map deepClone_tx (transactions st)) in
  match txs with
  | [] => []
  | first :: _ =>
      let months := monthsFrom (t_date first) in
      let monthly0 := fold_left (fun mo m => <[m := Fin 0]> mo) months ∅ in
      let cashBase :=
        fold_left (fun c a => num_add c (toBase (settings st)
                                                  (ensureNumber (a_openingBalance a))
                                                  (a_currency a)))
                  (accounts st) (Fin 0) in
      let monthlyMap :=
        fold_left (fun mo t => <[tx_month t :=
                                   num_add (default (Fin 0) (mo !! tx_month t))
                                           (tx_delta st t)]> mo)
                  txs monthly0 in
      let data := (fold_left (series_step monthlyMap) months (cashBase, [])).2 in
      let positionsBase := sum (map marketValueBase (positionsMV st)) in
      bump_last positionsBase data
  end.
End Locale.

(** ** Goals view *)

Record GoalCard : Type := mkGoalCard {
  gc_val : number;
  gc_pct : number;
  gc_left : number;
  gc_width : number;
  gc_daily : number;
}.

(** The values one card of [GoalsView] shows; [days] is the result of
    [daysUntil(g.deadline)], which reads the clock. *)
Definition goalCard (st : State) (g : Goal) (days : number) : GoalCard :=
  let p := progressFor st g in
  let left := Math_max (Fin 0) (num_sub (g_target g) (val p)) in
  {| gc_val := val p;
     gc_pct := pct p;
     gc_left := left;
     gc_width := Math_min hundred (pct p);
     gc_daily := num_div left (Math_max (Fin 1) days) |}.

(** ** Settings view *)

(** The local state of [SettingsView]. *)
Record SettingsForm : Type := mkSettingsForm {
  f_baseCurrency : Currency;
  f_usdKrw : jsval;
  f_risk : RiskProfile;
  f_driftTh : jsval;
  f_alloc : gmap AssetType number;
}.

(** What [saveAll] did: whether it asked for confirmation, whether it
    showed the notice that the settings were saved, and the state after. *)
Record SaveResult : Type := mkSaveResult {
  asked : bool;
  saved : bool;
  after : State;
}.

(** [function saveAll()]; [confirm] is the answer of the user when asked. *)
Definition saveAll (confirm : bool) (f : SettingsForm) (s : State) : SaveResult :=
  let total := sum (Object_values (f_alloc f)) in
  let off := num_gt (Math_abs (num_sub total hundred)) (Fin (Q2Qc (1 # 100))) in
  if off && negb confirm then {| asked := true; saved := false; after := s |}
  else
    {| asked := off;
       saved := true;
       after :=
         {| settings :=
              {| baseCurrency := f_baseCurrency f;
                 usdKrw := JNum (ensureNumber (f_usdKrw f));
                 riskProfile := f_risk f;
                 showAdvanced := showAdvanced (settings s) |};
            accounts := accounts s;
            transactions := transactions s;
            positions := positions s;
            goals := goals s;
            targets :=
              {| allocation := f_alloc f;
                 driftThreshold :=
                   Some (ensureNumber_or (f_driftTh f) (Fin (Qc_of_Z 5))) |} |} |}.

(** ** Transactions view *)

(** [byDate]: the transactions as the table lists them. *)
Definition byDate (localeCompare : string -> string -> number) (st : State)
  : list Transaction :=
  Array_sort (fun a b => localeCompare (t_date b) (t_date a))
             (map deepClone_tx (transactions st)).

(** ** Goal dialog: the buttons of the linked accounts *)

(** The updater of the button of account [id]; [checked] is what the
    button showed when it was drawn. *)
Definition toggle_account (checked : bool) (id : string) (ids : list string)
  : list string :=
  if checked then List.filter (fun x => bool_decide (x ≠ id)) ids else ids ++ [id].

(** A click on the button of account [id] in a dialog drawn from [ids]:
    [checked] is [form.accountIds.includes(a.id)]. *)
Definition click_account (id : string) (ids : list string) : list string :=
  toggle_account (bool_decide (id ∈ ids)) id ids.

(** ** The memo of [accountBalances]

    [accountBalances] is kept by [useMemo] until [cashFlows] or
    [state.accounts] changes, while [toBase] reads the settings: after a
    change of the settings alone the list shown is still the one computed
    with the settings [cfg] of an earlier render. *)
Definition accountBalances_memo (cfg : Settings) (st : State) : list AccountBalance :=
  let flows := cashFlows (accounts st) (transactions st) in
  map (fun a =>
         {| ab_account := a;
            balance := balance_of flows a;
            balanceBase := toBase cfg (balance_of flows a) (a_currency a) |})
      (accounts st).

(** * The engine in binary64

    The definitions above compute with exact rationals, which is enough
    for the properties that only compare numbers or rearrange lists.  The
    module [B64] gives the engine a second time, as the code runs it:

    - a number is an IEEE 754 binary64 value ([spec_float] with precision
      53 and maximal exponent 1024): every operation rounds to nearest,
      ties to even, overflows to an infinity, and zero has a sign;
    - the enumerations are the strings the records carry ([a.type],
      [p.assetType], [t.type], [currency]), compared with the literals of
      the code;
    - an object used as a dictionary ([flows], [totals], [monthly]) has
      the properties it inherits from [Object.prototype]: reading an
      inherited name gives a function or an object, and writing to
      ["__proto__"] goes to a setter that ignores numbers and strings;
    - [Object.values] lists array-index keys first, in ascending order,
      then the other keys in the order of their creation;
    - a value memoized by [useMemo] is computed with the settings of the
      render in which its dependencies last changed: those settings are
      an argument [cfg] of the function;
    - an operation that can throw returns a [result].

    Conventions.  A field that the code reads through [Number] is given
    by a [jsval]; a string or an array in such a field is represented by
    the number [Number] makes of it.  An id is the string it converts to
    as a property key.  The date of a transaction is [None] when it is
    absent, [null], a number or a boolean, on which neither
    [localeCompare] nor [slice] can be called.  The doubles are the
    values of [spec_float] that [valid_binary] accepts; what is proved
    holds for every value of the type. *)

Module B64.

(** ** Numbers *)

Definition prec : Z := 53%Z.
Definition emax : Z := 1024%Z.

Definition float : Type := spec_float.

#[global] Instance float_eq_dec : EqDecision float.
Proof. solve_decision. Defined.

(** The number an integer literal denotes. *)
Definition of_Z (z : Z) : float := binary_normalize prec emax z 0%Z false.

Definition zero : float := S754_zero false.
Definition one : float := of_Z 1.
Definition hundred : float := of_Z 100.

Definition add : float -> float -> float := SFadd prec emax.
Definition sub : float -> float -> float := SFsub prec emax.
Definition mul : float -> float -> float := SFmul prec emax.
Definition div : float -> float -> float := SFdiv prec emax.
Definition neg : float -> float := SFopp.
Definition Math_abs : float -> float := SFabs.

(** [x > y] and [x >= y] *)
Definition gt (x y : float) : bool := SFltb y x.
Definition ge (x y : float) : bool := SFleb y x.

Definition Number_isFinite (x : float) : bool :=
  match x with
  | S754_zero _ | S754_finite _ _ _ => true
  | S754_infinity _ | S754_nan => false
  end.


(** [!x] on a number: 0, -0 and NaN are falsy. *)
Definition falsy (x : float) : bool :=
  match x with
  | S754_zero _ | S754_nan => true
  | _ => false
  end.

Definition Math_sign (x : float) : float :=
  match x with
  | S754_nan => S754_nan
  | S754_zero s => S754_zero s
  | S754_infinity s | S754_finite s _ _ => if s then neg one else one
  end.

(** The value of a finite number as a rational (0 for the others). *)
Definition B2Q (x : float) : Q :=
  match x with
  | S754_finite s m e =>
      ((if s then - inject_Z (Zpos m) else inject_Z (Zpos m)) * Qpower (2 # 1) e)%Q
  | _ => 0%Q
  end.

(** ** Values read through [Number] *)

Inductive jsval : Type :=
  | JNum (x : float)
  | JUndefined
  | JNull
  | JBool (b : bool).

(** [Number(v)] *)
Definition Number (v : jsval) : float :=
  match v with
  | JNum x => x
  | JUndefined => S754_nan
  | JNull => zero
  | JBool true => one
  | JBool false => zero
  end.

(** [ensureNumber(n, fallback)] *)
Definition ensureNumber_or (n : jsval) (fallback : float) : float :=
  let x := Number n in
  if Number_isFinite x then x else fallback.

(** [ensureNumber(n)] *)
Definition ensureNumber (n : jsval) : float := ensureNumber_or n zero.

(** ** Records *)

Record Account : Type := mkAccount {
  a_id : string;
  a_name : string;
  a_type : string;
  a_currency : string;
  a_openingBalance : jsval;
}.

Record Transaction : Type := mkTransaction {
  t_id : string;
  t_date : option string;
  t_accountId : string;
  t_type : string;
  t_amount : jsval;
  t_fee : jsval;
  t_tax : jsval;
  t_note : string;
}.

Record Position : Type := mkPosition {
  p_id : string;
  p_accountId : string;
  p_symbol : string;
  p_name : string;
  p_assetType : string;
  p_qty : jsval;
  p_avgPrice : jsval;
  p_currency : string;
  p_lastPrice : jsval;
}.

Record Settings : Type := mkSettings {
  baseCurrency : string;
  usdKrw : jsval;
}.

(** The part of the state the engine reads; [allocation] holds the
    targets by type name, an absent or [null] target being absent. *)
Record State : Type := mkState {
  settings : Settings;
  accounts : list Account;
  transactions : list Transaction;
  positions : list Position;
  allocation : gmap string jsval;
}.

Definition ASSET_TYPES : list string :=
  ["Cash"; "Stock"; "ETF"; "Bond"; "Crypto"; "Real Estate"; "Other"].

(** ** Plain objects used as dictionaries *)

(** What a property of such an object holds: a number, or something else
    (an inherited function or object, or the string that [+] makes of
    it), which is truthy and which [Number] turns into NaN. *)
Inductive fval : Type :=
  | VNum (x : float)
  | VOther.

#[global] Instance fval_eq_dec : EqDecision fval.
Proof. solve_decision. Defined.

(** The property names of [Object.prototype]. *)
Definition proto_keys : list string :=
  ["__proto__"; "constructor"; "hasOwnProperty"; "isPrototypeOf";
   "propertyIsEnumerable"; "toLocaleString"; "toString"; "valueOf";
   "__defineGetter__"; "__defineSetter__"; "__lookupGetter__"; "__lookupSetter__"].

(** What [obj[k]] reads when the own property holds [own]: [None] is
    [undefined]. *)
Definition inherited (k : string) (own : option fval) : option fval :=
  match own with
  | Some v => Some v
  | None => if bool_decide (k ∈ proto_keys) then Some VOther else None
  end.

(** [obj[k]] on a dictionary whose order of keys does not matter. *)
Definition obj_get (o : gmap string fval) (k : string) : option fval :=
  inherited k (o !! k).

(** [obj[k] = v] for a number or a string [v]. *)
Definition obj_set (o : gmap string fval) (k : string) (v : fval) : gmap string fval :=
  if bool_decide (k = "__proto__") then o else <[k := v]> o.

(** [!v] *)
Definition falsy_val (v : option fval) : bool :=
  match v with
  | None => true
  | Some (VNum x) => falsy x
  | Some VOther => false
  end.

(** [Number(v)] *)
Definition to_number (v : option fval) : float :=
  match v with
  | Some (VNum x) => x
  | _ => S754_nan
  end.

(** [v + y] for a number [y]: an object, a function or a string is
    concatenated with the number. *)
Definition plus (v : option fval) (y : float) : fval :=
  match v with
  | Some (VNum x) => VNum (add x y)
  | Some VOther => VOther
  | None => VNum S754_nan
  end.

(** [v - y] *)
Definition minus (v : option fval) (y : float) : fval :=
  VNum (sub (to_number v) y).

(** [v ?? 0] *)
Definition or_zero (v : option fval) : fval :=
  match v with
  | Some x => x
  | None => VNum zero
  end.

(** [ensureNumber(v)] *)
Definition ensureNumber_val (v : option fval) : float :=
  let x := to_number v in
  if Number_isFinite x then x else zero.

(** ** [sum] *)

(** [Number.isFinite(b) ? b : 0] *)
Definition finite_or_zero (b : fval) : float :=
  match b with
  | VNum x => if Number_isFinite x then x else zero
  | VOther => zero
  end.

(** [arr.reduce((a, b) => a + (Number.isFinite(b) ? b : 0), 0)] *)
Definition sum (arr : list fval) : float :=
  fold_left (fun a b => add a (finite_or_zero b)) arr zero.

(** ** Currency conversion *)

(** [fx.USD_KRW] *)
Definition USD_KRW (s : Settings) : float :=
  ensureNumber_or (usdKrw s) (of_Z 1350).

(** [toBase(amount, currency)] in a render whose settings are [s]. *)
Definition toBase (s : Settings) (amount : float) (currency : string) : float :=
  if decide (baseCurrency s = currency) then amount
  else if decide (currency = "USD" /\ baseCurrency s = "KRW") then mul amount (USD_KRW s)
  else if decide (currency = "KRW" /\ baseCurrency s = "USD") then div amount (USD_KRW s)
  else amount.

(** ** Account balances *)

Definition is_credit (ty : string) : bool :=
  bool_decide (ty = "Deposit" \/ ty = "Income" \/ ty = "Sell").

Definition is_debit (ty : string) : bool :=
  bool_decide (ty = "Withdraw" \/ ty = "Expense" \/ ty = "Buy").

(** [ensureNumber(t.amount) - ensureNumber(t.fee) - ensureNumber(t.tax)] *)
Definition tx_amt (t : Transaction) : float :=
  sub (sub (ensureNumber (t_amount t)) (ensureNumber (t_fee t))) (ensureNumber (t_tax t)).

(** [amt * s] with [s = Math.sign(1)] *)
Definition signed_amt (t : Transaction) : float :=
  mul (tx_amt t) (Math_sign one).

(** The body of the loop over the transactions. *)
Definition cashFlows_step (flows : gmap string fval) (t : Transaction) : gmap string fval :=
  let k := t_accountId t in
  let flows1 :=
    if falsy_val (obj_get flows k) then obj_set flows k (VNum zero) else flows in
  let flows2 :=
    if is_credit (t_type t)
    then obj_set flows1 k (plus (obj_get flows1 k) (signed_amt t))
    else flows1 in
  if is_debit (t_type t)
  then obj_set flows2 k (minus (obj_get flows2 k) (signed_amt t))
  else flows2.

(** The loop over the accounts. *)
Definition cashFlows_init (accs : list Account) : gmap string fval :=
  fold_left (fun flows a => obj_set flows (a_id a) (VNum (ensureNumber (a_openingBalance a))))
            accs ∅.

Definition cashFlows (accs : list Account) (txs : list Transaction) : gmap string fval :=
  fold_left cashFlows_step txs (cashFlows_init accs).

Record AccountBalance : Type := mkAccountBalance {
  ab_account : Account;
  balance : float;
  balanceBase : float;
}.

(** [ensureNumber(cashFlows[a.id])] *)
Definition balance_of (flows : gmap string fval) (a : Account) : float :=
  ensureNumber_val (obj_get flows (a_id a)).

(** [accountBalances], computed in a render whose settings are [cfg]. *)
Definition accountBalances (cfg : Settings) (accs : list Account) (txs : list Transaction)
  : list AccountBalance :=
  let flows := cashFlows accs txs in
  map (fun a =>
         {| ab_account := a;
            balance := balance_of flows a;
            balanceBase := toBase cfg (balance_of flows a) (a_currency a) |})
      accs.

(** ** Positions *)

Record PositionMV : Type := mkPositionMV {
  pv_position : Position;
  marketValue : float;
  marketValueBase : float;
  pnl : float;
  pnlPct : float;
}.

Definition valuation (cfg : Settings) (p : Position) : PositionMV :=
  {| pv_position := p;
     marketValue := mul (ensureNumber (p_qty p)) (ensureNumber (p_lastPrice p));
     marketValueBase :=
       toBase cfg (mul (ensureNumber (p_qty p)) (ensureNumber (p_lastPrice p)))
              (p_currency p);
     pnl := mul (sub (ensureNumber (p_lastPrice p)) (ensureNumber (p_avgPrice p)))
                (ensureNumber (p_qty p));
     pnlPct := mul (sub (div (ensureNumber (p_lastPrice p)) (ensureNumber (p_avgPrice p)))
                        one)
                   hundred |}.

(** [positionsMV], computed in a render whose settings are [cfg]. *)
Definition positionsMV (cfg : Settings) (poss : list Position) : list PositionMV :=
  map (valuation cfg) poss.

(** ** Objects whose keys are enumerated *)

(** The own properties in the order [Object.values] lists them. *)
Definition jsobj : Type := list (string * fval).

(** The array index a key denotes, if it is one: a decimal numeral
    without superfluous zeros, at most 2^32 - 2. *)
Definition array_index (k : string) : option N :=
  match NilEmpty.uint_of_string k with
  | Some u =>
      let n := N.of_uint u in
      if (String.eqb (NilZero.string_of_uint (N.to_uint n)) k && (n <=? 4294967294)%N)%bool
      then Some n else None
  | None => None
  end.

Fixpoint own_get (o : jsobj) (k : string) : option fval :=
  match o with
  | [] => None
  | (k', v) :: o' => if decide (k' = k) then Some v else own_get o' k
  end.

Fixpoint own_replace (o : jsobj) (k : string) (v : fval) : jsobj :=
  match o with
  | [] => []
  | (k', w) :: o' => if decide (k' = k) then (k', v) :: o' else (k', w) :: own_replace o' k v
  end.

(** Where a new array-index key [n] goes: after the smaller indices. *)
Fixpoint insert_index (o : jsobj) (n : N) (k : string) (v : fval) : jsobj :=
  match o with
  | [] => [(k, v)]
  | (k', w) :: o' =>
      match array_index k' with
      | Some n' => if (n' <? n)%N then (k', w) :: insert_index o' n k v
                   else (k, v) :: o
      | None => (k, v) :: o
      end
  end.

(** [o[k]] *)
Definition prop_get (o : jsobj) (k : string) : option fval :=
  inherited k (own_get o k).

(** [o[k] = v] for a number or a string [v]. *)
Definition prop_set (o : jsobj) (k : string) (v : fval) : jsobj :=
  if bool_decide (k = "__proto__") then o
  else match own_get o k with
       | Some _ => own_replace o k v
       | None =>
           match array_index k with
           | Some n => insert_index o n k v
           | None => o ++ [(k, v)]
           end
       end.

(** [Object.values(o)] *)
Definition Object_values (o : jsobj) : list fval := map snd o.

(** ** Totals and allocation *)

(** [totals[t] = (totals[t] ?? 0) + x] *)
Definition totals_add (totals : jsobj) (t : string) (x : float) : jsobj :=
  prop_set totals t (plus (Some (or_zero (prop_get totals t))) x).

Definition totalsByType (abs : list AccountBalance) (pvs : list PositionMV) : jsobj :=
  let totals1 :=
    fold_left (fun totals a => totals_add totals (a_type (ab_account a)) (balanceBase a))
              abs [] in
  fold_left (fun totals p => totals_add totals (p_assetType (pv_position p)) (marketValueBase p))
            pvs totals1.

Definition totalAssetsBase (totals : jsobj) : float :=
  sum (Object_values totals).

(** The body of the loop of [allocationActual] for the type [t]. *)
Definition allocation_of (totals : jsobj) (total : float) (t : string) : float :=
  let v := or_zero (prop_get totals t) in
  if gt total zero then mul (div (to_number (Some v)) total) hundred else zero.

Definition allocationActual (totals : jsobj) (total : float) : gmap string float :=
  fold_left (fun obj t => <[t := allocation_of totals total t]> obj) ASSET_TYPES ∅.

(** ** Drift *)

Record DriftEntry : Type := mkDriftEntry {
  d_type : string;
  d_target : jsval;
  d_actual : float;
  d_diff : float;
}.

(** [x ?? 0] on a target. *)
Definition target_or_zero (v : option jsval) : jsval :=
  match v with
  | Some JUndefined | Some JNull | None => JNum zero
  | Some x => x
  end.

Definition drift_entry (target : gmap string jsval) (actual : gmap string float) (t : string)
  : DriftEntry :=
  let tg := target_or_zero (target !! t) in
  let ac := default zero (actual !! t) in
  {| d_type := t; d_target := tg; d_actual := ac; d_diff := sub ac (Number tg) |}.

(** A stable sort by insertion; [after x y] is [comparefn(x, y) > 0]. *)
Fixpoint sort_insert_by {A} (after : A -> A -> bool) (x : A) (l : list A) : list A :=
  match l with
  | [] => [x]
  | y :: l' => if after x y then y :: sort_insert_by after x l' else x :: l
  end.

Definition sort_by {A} (after : A -> A -> bool) (l : list A) : list A :=
  foldr (sort_insert_by after) [] l.

(** [(a, b) => Math.abs(b.diff) - Math.abs(a.diff)] is positive *)
Definition by_abs_diff (a b : DriftEntry) : bool :=
  gt (sub (Math_abs (d_diff b)) (Math_abs (d_diff a))) zero.

Definition drift (target : gmap string jsval) (actual : gmap string float)
  : list DriftEntry :=
  sort_by by_abs_diff (map (drift_entry target actual) ASSET_TYPES).

(** ** Net worth per month *)

Inductive exn : Type := TypeError.

Inductive result (A : Type) : Type :=
  | Ok (a : A)
  | Throw (e : exn).
Arguments Ok {A} a.
Arguments Throw {A} e.

(** [JSON.parse(JSON.stringify(v))] on a numeric field: NaN and the
    infinities are written as [null], and -0 as [0]. *)
Definition deepClone_val (v : jsval) : jsval :=
  match v with
  | JNum (S754_zero _) => JNum zero
  | JNum (S754_finite s m e) => JNum (S754_finite s m e)
  | JNum _ => JNull
  | JUndefined => JUndefined
  | JNull => JNull
  | JBool b => JBool b
  end.

Definition deepClone_tx (t : Transaction) : Transaction :=
  {| t_id := t_id t; t_date := t_date t; t_accountId := t_accountId t;
     t_type := t_type t; t_amount := deepClone_val (t_amount t);
     t_fee := deepClone_val (t_fee t); t_tax := deepClone_val (t_tax t);
     t_note := t_note t |}.

(** [accountsById]: of two accounts with one id the later one stays. *)
Definition accountsById (accs : list Account) : gmap string Account :=
  fold_left (fun obj a => <[a_id a := a]> obj) accs ∅.

(** [acc?.currency ?? state.settings.baseCurrency]; an inherited
    property of the dictionary has no [currency]. *)
Definition tx_currency (cfg : Settings) (accs : list Account) (t : Transaction) : string :=
  match accountsById accs !! t_accountId t with
  | Some acc => a_currency acc
  | None => baseCurrency cfg
  end.

(** [delta] of one transaction. *)
Definition tx_delta (cfg : Settings) (accs : list Account) (t : Transaction) : float :=
  let baseAmt := toBase cfg (tx_amt t) (tx_currency cfg accs t) in
  let delta1 := if is_credit (t_type t) then baseAmt else zero in
  if is_debit (t_type t) then neg baseAmt else delta1.

Record SeriesPoint : Type := mkSeriesPoint { sp_month : string; cash : fval }.

(** [x += y] when [x] may have become a string. *)
Definition plus_val (x : fval) (y : fval) : fval :=
  match x, y with
  | VNum a, VNum b => VNum (add a b)
  | _, _ => VOther
  end.

Definition series_step (monthlyMap : gmap string fval)
           (acc : fval * list SeriesPoint) (m : string) : fval * list SeriesPoint :=
  let running := plus_val acc.1 (or_zero (obj_get monthlyMap m)) in
  (running, acc.2 ++ [{| sp_month := m; cash := running |}]).

(** [data[data.length - 1].cash += positionsBase] *)
Definition bump_last (x : float) (data : list SeriesPoint) : list SeriesPoint :=
  match reverse data with
  | [] => []
  | p :: before =>
      reverse before ++ [{| sp_month := sp_month p; cash := plus_val (cash p) (VNum x) |}]
  end.

(** The dates of the transactions, when each of them is a string. *)
Definition dates (txs : list Transaction) : option (list (string * Transaction)) :=
  mapM (fun t => d ← t_date t; Some (d, t)) txs.

Section Clock.
(** [a.localeCompare(b)] and the labels [YYYY-MM] the [Date] loop pushes
    from the month of a date through the current month. *)
Variable localeCompare : string -> string -> number.
Variable monthsFrom : string -> list string.

(** [netWorthSeries], computed in a render whose settings are [cfg] from
    the memoized [pvs].  A date that is not a string makes
    [a.date.localeCompare] or [t.date.slice] throw. *)
Definition netWorthSeries (cfg : Settings) (accs : list Account) (txs0 : list Transaction)
           (pvs : list PositionMV) : result (list SeriesPoint) :=
  match txs0 with
  | [] => Ok []
  | _ :: _ =>
      match dates (map deepClone_tx txs0) with
      | None => Throw TypeError
      | Some dated =>
          let txs := Array_sort (fun a b => localeCompare a.1 b.1) dated in
          match txs with
          | [] => Ok []
          | first :: _ =>
              let months := monthsFrom first.1 in
              let monthly0 :=
                fold_left (fun mo m => obj_set mo m (VNum zero)) months ∅ in
              let cashBase :=
                fold_left (fun c a => add c (toBase cfg (ensureNumber (a_openingBalance a))
                                                      (a_currency a)))
                          accs zero in
              let monthlyMap :=
                fold_left (fun mo dt =>
                             let m := String.substring 0 7 dt.1 in
                             obj_set mo m (plus (Some (or_zero (obj_get mo m)))
                                                (tx_delta cfg accs dt.2)))
                          txs monthly0 in
              let data := (fold_left (series_step monthlyMap) months (VNum cashBase, [])).2 in
              let positionsBase := sum (map (fun p => VNum (marketValueBase p)) pvs) in
              Ok (bump_last positionsBase data)
          end
      end
  end.

(** ** One render from scratch *)


End Clock.

(** ** Adding a transaction *)

(** [{ id: uid(), ...payload }] appended to the transactions; [uid()]
    draws a random id, and the payload of the form carries no id of its
    own. *)
Definition addTransaction (uid : string) (payload : Transaction) (txs : list Transaction)
  : list Transaction :=
  txs ++ [{| t_id := uid; t_date := t_date payload; t_accountId := t_accountId payload;
             t_type := t_type payload; t_amount := t_amount payload;
             t_fee := t_fee payload; t_tax := t_tax payload; t_note := t_note payload |}].

(** ** Vocabulary *)

(** What a read of key [k] gives after [new] was written to it, when it
    gave [old] before. *)
Definition stored (k : string) (old : option fval) (new : fval) : option fval :=
  if bool_decide (k = "__proto__") then old else Some new.

(** What the loop body does to the value under the key of [t], as the
    next read of that key sees it. *)
Definition key_step (v : option fval) (t : Transaction) : option fval :=
  let k := t_accountId t in
  let v1 := if falsy_val v then stored k v (VNum zero) else v in
  let v2 := if is_credit (t_type t) then stored k v1 (plus v1 (signed_amt t)) else v1 in
  if is_debit (t_type t) then stored k v2 (minus v2 (signed_amt t)) else v2.

(** The loop body on the running balance of an account. *)
Definition own_step (x : float) (t : Transaction) : float :=
  let x1 := if falsy x then zero else x in
  let x2 := if is_credit (t_type t) then add x1 (signed_amt t) else x1 in
  if is_debit (t_type t) then sub x2 (signed_amt t) else x2.

(** The transactions on the key [k], in the order of the list. *)
Definition txs_on (k : string) (txs : list Transaction) : list Transaction :=
  List.filter (fun t => bool_decide (t_accountId t = k)) txs.

(** The opening balance the loop over the accounts leaves under [k]. *)
Definition opening_under (k : string) (accs : list Account) : option float :=
  ensureNumber <$> (a_openingBalance <$>
    last (List.filter (fun a => bool_decide (a_id a = k)) accs)).

(** The seven percentages, in the order of [ASSET_TYPES]. *)
Definition percentages (totals : jsobj) : list float :=
  map (allocation_of totals (totalAssetsBase totals)) ASSET_TYPES.





Definition num (z : Z) : jsval := JNum (of_Z z).

Definition krw_settings : Settings := mkSettings "KRW" (num 1350).

(** An account in won without transactions. *)
Definition account (id ty : string) (opening : Z) : Account :=
  mkAccount id "" ty "KRW" (num opening).

Definition deposit (id : string) (amount : Z) : Transaction :=
  mkTransaction "" (Some "2025-01-01") id "Deposit" (num amount) (num 0) (num 0) "".

(** The position the add-position dialog saves when its fields are left
    at their defaults. *)
Definition blank_position : Position :=
  mkPosition "pos0" "acc2" "" "" "Stock" (num 0) (num 0) "KRW" (num 0).








(** Base currency USD with a rate of 0, an account in won and a position
    in dollars. *)
Definition zero_rate_state : State :=
  mkState (mkSettings "USD" (num 0)) [account "a" "Cash" 0] [deposit "a" 0]
          [mkPosition "p" "a" "" "" "Stock" (num 1) (num 50) "USD" (num 100)] ∅.




End B64.
(** * Specification vocabulary *)

(** The rational a field is read as by [ensureNumber]. *)
Definition coerced (v : jsval) : Qc :=
  match Number v with Fin q => q | _ => 0 end.

Definition Qc_sum (l : list Qc) : Qc := foldr Qcplus 0 l.

(** [amount - fee - tax], each read through [ensureNumber]. *)
Definition amtQ (t : Transaction) : Qc :=
  coerced (t_amount t) - coerced (t_fee t) - coerced (t_tax t).

(** The transactions of account [k] whose kind satisfies [P]. *)
Definition txs_of (k : string) (P : TxType -> bool) (txs : list Transaction)
  : list Transaction :=
  List.filter (fun t => bool_decide (t_accountId t = k) && P (t_type t)) txs.

Definition credited (k : string) (txs : list Transaction) : Qc :=
  Qc_sum (amtQ <$> txs_of k is_credit txs).

Definition debited (k : string) (txs : list Transaction) : Qc :=
  Qc_sum (amtQ <$> txs_of k is_debit txs).

(** Effect of one transaction on the balance of its account. *)
Definition signedQ (t : Transaction) : Qc :=
  if is_credit (t_type t) then amtQ t else - amtQ t.

Definition net (k : string) (txs : list Transaction) : Qc :=
  Qc_sum (signedQ <$> List.filter (fun t => bool_decide (t_accountId t = k)) txs).

(** Every value stored in [flows] is finite. *)
Definition all_fin (m : gmap string number) : Prop :=
  forall k v, m !! k = Some v -> Number_isFinite v = true.

Definition valQ (m : gmap string number) (k : string) : Qc :=
  match m !! k with Some (Fin q) => q | _ => 0 end.

Definition opening_insert (flows : gmap string number) (a : Account)
  : gmap string number :=
  <[a_id a := ensureNumber (a_openingBalance a)]> flows.

(** The balance of account [a] announced by the specification. *)
Definition expected_balance (a : Account) (txs : list Transaction) : number :=
  Fin (coerced (a_openingBalance a) + credited (a_id a) txs - debited (a_id a) txs).

Definition balance_spec (accs : list Account) (txs : list Transaction) (a : Account)
  : Prop :=
  cashFlows accs txs !! a_id a = Some (expected_balance a txs) /\
  balance_of (cashFlows accs txs) a = expected_balance a txs.

(** ** Sample records *)

Definition num (z : Z) : jsval := JNum (Fin (Qc_of_Z z)).

Definition acc_checking : Account :=
  mkAccount "a1" "checking" Cash KRW (num 2000000).

Definition tx_seed : Transaction :=
  mkTransaction "t1" "2025-01-01" "a1" Deposit (num 1000000) (num 0) (num 0) "seed".

Definition tx_fee : Transaction :=
  mkTransaction "t2" "2025-01-02" "a1" Withdraw (num 500) (num 10) (num 5) "".

(** Two accounts sharing one id. *)
Definition dup_first : Account := mkAccount "a" "first" Cash KRW (num 1).
Definition dup_second : Account := mkAccount "a" "second" Cash KRW (num 2).

(** The order of the extended rationals; NaN is not comparable. *)
Definition num_le (x y : number) : Prop :=
  match x, y with
  | NaN, _ | _, NaN => False
  | Fin a, Fin b => a ≤ b
  | NInf, _ | _, PInf => True
  | _, NInf | PInf, _ => False
  end.

(** The threshold read by [rebalanceAlerts]: 5 when it is absent. *)
Definition threshold_of (st : State) : number :=
  default (Fin (Qc_of_Z 5)) (driftThreshold (targets st)).

(** A goal with [id] taken out of its linked accounts. *)
Definition unlink (id : string) (g : Goal) : Goal :=
  {| g_id := g_id g; g_name := g_name g; g_target := g_target g;
     g_deadline := g_deadline g;
     g_accountIds := List.filter (fun x => bool_decide (x ≠ id)) (g_accountIds g);
     g_note := g_note g |}.

Definition sample_settings : Settings :=
  mkSettings KRW (num 1350) Neutral true.

Definition sample_state : State :=
  {| settings := sample_settings;
     accounts := [acc_checking];
     transactions := [tx_seed];
     positions := [];
     goals := [];
     targets := {| allocation := ∅; driftThreshold := Some (Fin (Qc_of_Z 5)) |} |}.

(** A parser that, like [JSON.parse], rejects the empty text. *)
Definition parse_nonempty (text : string) : option State :=
  if decide (text = "") then None else Some sample_state.

(** ** Sorted output *)

(** [x] may stand before [y] in the output of a stable sort: [x] is not
    after [y] in the order [le], and when the two are tied they are in
    their original order [orig]. *)
Definition stable_before {A} (le orig : A -> A -> Prop) (x y : A) : Prop :=
  le x y /\ (le y x -> orig x y).

(** Descending absolute diff. *)
Definition abs_desc (x y : DriftEntry) : Prop :=
  num_le (Math_abs (d_diff y)) (Math_abs (d_diff x)).

(** The order of [ASSET_TYPES]. *)
Definition enum_before (x y : DriftEntry) : Prop :=
  (type_index (d_type x) < type_index (d_type y))%nat.

Definition drift_before : DriftEntry -> DriftEntry -> Prop :=
  stable_before abs_desc enum_before.

(** A state whose exchange rate is 0 (the value [saveAll] stores when the
    rate field is left empty), reported in USD, with one KRW cash account
    and one USD stock position. *)
Definition zero_rate_state : State :=
  {| settings := mkSettings USD (num 0) Neutral true;
     accounts := [mkAccount "a1" "checking" Cash KRW (num 0)];
     transactions := [];
     positions :=
       [mkPosition "p1" "a2" "VOO" "Vanguard S&P500" Stock
                   (num 1) (num 100) USD (num 100)];
     goals := [];
     targets := {| allocation := ∅; driftThreshold := Some (Fin (Qc_of_Z 5)) |} |}.

(** Descending and ascending diff, the orders of the two sorts of
    [suggestRebalance]. *)
Definition diff_desc (x y : DriftEntry) : Prop := num_le (d_diff y) (d_diff x).
Definition diff_asc (x y : DriftEntry) : Prop := num_le (d_diff x) (d_diff y).

Definition any_order {A} (x y : A) : Prop := True.

Definition is_over (d : DriftEntry) : bool := num_gt (d_diff d) (Fin 0).
Definition is_under (d : DriftEntry) : bool := num_lt (d_diff d) (Fin 0).

(** A drift list with one overweight and two underweight types. *)
Definition sample_drift : list DriftEntry :=
  [ mkDriftEntry Stock (Fin (Qc_of_Z 45)) (Fin (Qc_of_Z 55)) (Fin (Qc_of_Z 10));
    mkDriftEntry Cash (Fin (Qc_of_Z 20)) (Fin (Qc_of_Z 13)) (Fin (Qc_of_Z (-7)));
    mkDriftEntry Bond (Fin (Qc_of_Z 10)) (Fin (Qc_of_Z 7)) (Fin (Qc_of_Z (-3))) ].

(** ** Totals and allocation *)

(** A number as [sum] counts it: non-finite values count for 0. *)
Definition fin_or_zero (x : number) : Qc :=
  match x with Fin q => q | _ => 0 end.

(** The total of type [t] as the grand total counts it. *)
Definition type_total (totals : gmap AssetType number) (t : AssetType) : Qc :=
  fin_or_zero (default (Fin 0) (totals !! t)).

Definition totals_fin (m : gmap AssetType number) : Prop :=
  forall t v, m !! t = Some v -> Number_isFinite v = true.

(** No division by a zero exchange rate can occur. *)
Definition convertible (s : Settings) : Prop :=
  baseCurrency s = KRW \/ USD_KRW s ≠ Fin 0.

(** Plain sum of numbers: NaN and infinities propagate. *)
Definition num_sum (l : list number) : number := foldr num_add (Fin 0) l.

(** The seven percentages of [allocationActual], in the order of
    [ASSET_TYPES]. *)
Definition percentages (st : State) : list number :=
  map (fun t => default NaN (allocationActual st !! t)) ASSET_TYPES.

(** The seed data of the source, with the random ids and today's date
    replaced by fixed strings. *)
Definition seed : State :=
  {| settings := mkSettings KRW (num 1350) Neutral true;
     accounts :=
       [ mkAccount "acc1" "checking" Cash KRW (num 2000000);
         mkAccount "acc2" "broker-domestic" Stock KRW (num 10000000);
         mkAccount "acc3" "broker-overseas" ETF USD (num 5000);
         mkAccount "acc4" "exchange" Crypto KRW (num 1000000) ];
     transactions :=
       [ mkTransaction "tx1" "2025-01-01" "acc1" Deposit
                       (num 1000000) (num 0) (num 0) "seed" ];
     positions :=
       [ mkPosition "pos1" "acc2" "005930.KS" "Samsung Electronics" Stock
                    (num 20) (num 70000) KRW (num 81000);
         mkPosition "pos2" "acc3" "VOO" "Vanguard S&P500" ETF
                    (num 5) (num 400) USD (num 530) ];
     goals :=
       [ mkGoal "g1" "emergency fund" (Fin (Qc_of_Z 3000000)) "2026-06-30" [] "";
         mkGoal "g2" "tuition" (Fin (Qc_of_Z 10000000)) "2026-02-28" [] "" ];
     targets :=
       {| allocation :=
            <[Cash := Fin (Qc_of_Z 20)]> (<[Stock := Fin (Qc_of_Z 45)]>
            (<[ETF := Fin (Qc_of_Z 15)]> (<[Bond := Fin (Qc_of_Z 10)]>
            (<[Crypto := Fin (Qc_of_Z 5)]> (<[RealEstate := Fin (Qc_of_Z 5)]>
            (<[Other := Fin (Qc_of_Z 0)]> ∅))))));
          driftThreshold := Some (Fin (Qc_of_Z 5)) |} |}.

(** The position the add-position dialog saves when its fields are left
    at their defaults. *)
Definition blank_position : Position :=
  mkPosition "pos0" "acc2" "" "" Stock (num 0) (num 0) KRW (num 0).

Definition targets_fin (tg : Targets) : Prop :=
  forall t v, allocation tg !! t = Some v -> Number_isFinite v = true.

(** ** Vocabulary of the further properties *)

(** The settings with another base currency. *)
Definition with_base (c : Currency) (s : Settings) : Settings :=
  {| baseCurrency := c; usdKrw := usdKrw s; riskProfile := riskProfile s;
     showAdvanced := showAdvanced s |}.

(** The balances the state shows for account [a]. *)
Definition state_balance (s : State) (a : Account) : number :=
  balance_of (cashFlows (accounts s) (transactions s)) a.

(** Every transaction and every position refers to an existing account. *)
Definition refs_ok (s : State) : Prop :=
  (forall t, t ∈ transactions s -> t_accountId t ∈ a_id <$> accounts s) /\
  (forall p, p ∈ positions s -> p_accountId p ∈ a_id <$> accounts s).

(** The patch of the price button: the last price alone. *)
Definition price_patch (v : jsval) : PositionPatch :=
  {| pp_id := None; pp_accountId := None; pp_symbol := None; pp_name := None;
     pp_assetType := None; pp_qty := None; pp_avgPrice := None;
     pp_currency := None; pp_lastPrice := Some v |}.

(** The order of [ASSET_TYPES] on the slices of the pie chart. *)
Definition slice_before (x y : Slice) : Prop :=
  (type_index (slice_name x) < type_index (slice_name y))%nat.

(** A goal with other linked accounts. *)
Definition with_accountIds (ids : list string) (g : Goal) : Goal :=
  {| g_id := g_id g; g_name := g_name g; g_target := g_target g;
     g_deadline := g_deadline g; g_accountIds := ids; g_note := g_note g |}.

(** A goal of the seed data linked to the checking account. *)
Definition goal_linked : Goal :=
  mkGoal "g1" "emergency fund" (Fin (Qc_of_Z 3000000)) "2026-06-30" ["acc1"] "".

(** The nominal sum of the targets of a form. *)
Definition targets_total (alloc : gmap AssetType number) : Qc :=
  Qc_sum (type_total alloc <$> ASSET_TYPES).

(** Absolute value of a rational, as [Math_abs] computes it. *)
Definition Qc_abs (x : Qc) : Qc := if decide (x < 0) then - x else x.

(** The grand total and the diff of an asset type as rationals. *)
Definition grandQ (st : State) : Qc :=
  Qc_sum (type_total (totalsByType st) <$> ASSET_TYPES).

Definition diffQ (st : State) (t : AssetType) : Qc :=
  type_total (totalsByType st) t / grandQ st * Qc_of_Z 100
  - type_total (allocation (targets st)) t.

(** ** Vocabulary of the reports *)

(** The row stored under month [m], if any. *)
Fixpoint rows_get (m : string) (rows : list (string * MonthRow)) : option MonthRow :=
  match rows with
  | [] => None
  | (k, r) :: rows' => if decide (k = m) then Some r else rows_get m rows'
  end.

(** The gross amount of a transaction in base currency: fee and tax are
    not subtracted. *)
Definition gross_base (st : State) (t : Transaction) : number :=
  toBase (settings st) (ensureNumber (t_amount t)) (tx_currency st t).

Definition in_month (m : string) (P : TxType -> bool) (t : Transaction) : bool :=
  bool_decide (tx_month t = m) && P (t_type t).

Definition month_income (st : State) (m : string) (txs : list Transaction) : number :=
  num_sum (map (gross_base st) (List.filter (in_month m is_credit) txs)).

Definition month_expense (st : State) (m : string) (txs : list Transaction) : number :=
  num_sum (map (gross_base st) (List.filter (in_month m is_debit) txs)).

(** The loop of [ReportsView] over a list of transactions. *)
Definition rows_from (st : State) (txs : list Transaction) : list (string * MonthRow) :=
  fold_left (monthlyRows_step st) txs [].

(** Two transactions that differ at most in id, fee, tax and note. *)
Definition same_but_costs (t t' : Transaction) : Prop :=
  t_date t = t_date t' /\ t_accountId t = t_accountId t' /\
  t_type t = t_type t' /\ t_amount t = t_amount t'.

(** The seed data with a fee and a tax on its transaction. *)
Definition seed_with_costs : State :=
  set_transactions
    [ mkTransaction "tx1" "2025-01-01" "acc1" Deposit
                    (num 1000000) (num 1500) (num 300) "seed" ] seed.

(** The row of a month after one more transaction. *)
Definition row_after (st : State) (t : Transaction) (r : MonthRow) : MonthRow :=
  {| income := if is_credit (t_type t) then num_add (income r) (gross_base st t)
               else income r;
     expense := if is_debit (t_type t) then num_add (expense r) (gross_base st t)
                else expense r |}.

Definition zero_row : MonthRow := {| income := Fin 0; expense := Fin 0 |}.

(** The row the report is to hold for month [m]. *)
Definition month_row (st : State) (m : string) (txs : list Transaction) : MonthRow :=
  {| income := month_income st m txs; expense := month_expense st m txs |}.

(** The checking account of the seed data. *)
Definition acc_checking_seed : Account :=
  mkAccount "acc1" "checking" Cash KRW (num 2000000).

(** ** Vocabulary of the net-worth series *)

(** The net effect in base currency of the transactions dated in month
    [m]. *)
Definition bucket (st : State) (m : string) : number :=
  num_sum (map (tx_delta st)
               (List.filter (fun t => bool_decide (tx_month t = m)) (transactions st))).

(** The opening balances in base currency. *)
Definition cash_base (st : State) : number :=
  num_sum (map (fun a => toBase (settings st) (ensureNumber (a_openingBalance a))
                                (a_currency a))
               (accounts st)).

Definition positions_base (st : State) : number :=
  sum (map marketValueBase (positionsMV st)).

(** The points of a running total that starts at [r] and adds [b m] at
    month [m]. *)
Fixpoint running_points (b : string -> number) (r : number) (months : list string)
  : list SeriesPoint :=
  match months with
  | [] => []
  | m :: months' =>
      let r' := num_add r (b m) in
      {| sp_month := m; cash := r' |} :: running_points b r' months'
  end.

(** The transactions as [netWorthSeries] walks them. *)
Definition sorted_clones (localeCompare : string -> string -> number) (st : State)
  : list Transaction :=
  Array_sort (fun a b => localeCompare (t_date a) (t_date b))
             (map deepClone_tx (transactions st)).

(** ** Further sample data *)


(** ** Vocabulary of the sorts by date *)

(** The comparison [lc] orders strings as the transitive relation [le]
    does: a positive result means strictly after. *)
Definition orders_as (le : string -> string -> Prop) (lc : string -> string -> number)
  : Prop :=
  (forall x y z, le x y -> le y z -> le x z) /\
  (forall x y, num_gt (lc x y) (Fin 0) = true -> le y x /\ ~ le x y) /\
  (forall x y, num_gt (lc x y) (Fin 0) = false -> le x y).

(** Comparison by character codes, for the examples. *)
Definition code_compare (a b : string) : number :=
  match String.compare a b with
  | Lt => Fin (Qc_of_Z (-1))
  | Eq => Fin 0
  | Gt => Fin 1
  end.

Definition code_le (a b : string) : Prop := String.leb a b = true.

(** Three transactions entered out of order, two of them on one day. *)
Definition tx_jan : Transaction :=
  mkTransaction "tx1" "2025-01-01" "acc1" Deposit (num 1000000) (num 0) (num 0) "seed".
Definition tx_mar : Transaction :=
  mkTransaction "tx2" "2025-03-10" "acc1" Expense (num 1000) (num 0) (num 0) "lunch".
Definition tx_mar_late : Transaction :=
  mkTransaction "tx3" "2025-03-10" "acc1" Expense (num 2000) (num 0) (num 0) "dinner".

Definition three_dates : State :=
  {| settings := settings seed; accounts := accounts seed;
     transactions := [tx_mar; tx_jan; tx_mar_late];
     positions := positions seed; goals := goals seed; targets := targets seed |}.

(** The seed data after the base currency was set to USD. *)
Definition seed_in_usd : State :=
  {| settings := with_base USD (settings seed); accounts := accounts seed;
     transactions := transactions seed; positions := positions seed;
     goals := goals seed; targets := targets seed |}.
(** * Properties *)

(** ** Numbers *)

Lemma ensureNumber_Fin v : ensureNumber v = Fin (coerced v).
Proof.
  unfold ensureNumber, ensureNumber_or, coerced.
  by destruct (Number v).
Qed.

Lemma ensureNumber_finite_id q : ensureNumber (JNum (Fin q)) = Fin q.
Proof. done. Qed.

Lemma Math_sign_one : Math_sign (Fin 1) = Fin 1.
Proof. done. Qed.

Lemma Qc_sum_cons x l : Qc_sum (x :: l) = x + Qc_sum l.
Proof. done. Qed.

Lemma Qc_sum_app l1 l2 : Qc_sum (l1 ++ l2) = Qc_sum l1 + Qc_sum l2.
Proof. induction l1 as [|x l1 IH]; simpl; [ring | rewrite IH; ring]. Qed.

Lemma Qc_sum_Permutation l1 l2 : l1 ≡ₚ l2 -> Qc_sum l1 = Qc_sum l2.
Proof.
  induction 1 as [|x l1 l2 _ IH|x y l|l1 l2 l3 _ IH1 _ IH2]; simpl.
  - done.
  - by rewrite IH.
  - ring.
  - by rewrite IH1.
Qed.

(** ** Account balances *)

Lemma tx_amt_Fin t : tx_amt t = Fin (amtQ t).
Proof. unfold tx_amt, amtQ. by rewrite !ensureNumber_Fin. Qed.

Lemma net_cons k t txs :
  net k (t :: txs) =
    if decide (t_accountId t = k) then signedQ t + net k txs else net k txs.
Proof. unfold net. simpl. by case_bool_decide; case_decide. Qed.

Lemma net_not_elem_of k txs : k ∉ t_accountId <$> txs -> net k txs = 0.
Proof.
  induction txs as [|t txs IH]; [done|].
  rewrite fmap_cons, not_elem_of_cons, net_cons. intros [Hne Hnin].
  rewrite decide_False by done. by apply IH.
Qed.

Lemma txs_of_cons k P t txs :
  txs_of k P (t :: txs) =
    if bool_decide (t_accountId t = k) && P (t_type t)
    then t :: txs_of k P txs else txs_of k P txs.
Proof. done. Qed.

Lemma net_credited_debited k txs : net k txs = credited k txs - debited k txs.
Proof.
  unfold credited, debited.
  induction txs as [|t txs IH]; [unfold net; simpl; ring|].
  rewrite net_cons, !txs_of_cons, IH. unfold signedQ.
  destruct (decide (t_accountId t = k)) as [Hk|Hk].
  - rewrite !bool_decide_eq_true_2 by done.
    destruct (t_type t); cbn [is_credit is_debit andb];
      rewrite ?fmap_cons, ?Qc_sum_cons; ring.
  - by rewrite !bool_decide_eq_false_2 by done.
Qed.

Lemma net_Permutation k txs1 txs2 : txs1 ≡ₚ txs2 -> net k txs1 = net k txs2.
Proof.
  intros Hp. unfold net. apply Qc_sum_Permutation.
  apply fmap_Permutation.
  induction Hp as [|x l1 l2 _ IH|x y l|l1 l2 l3 _ IH1 _ IH2]; simpl.
  - done.
  - case_bool_decide; by rewrite IH.
  - repeat case_bool_decide; try done. apply perm_swap.
  - by rewrite IH1.
Qed.

Lemma cashFlows_step_lookup m t k :
  all_fin m ->
  cashFlows_step m t !! k =
    if decide (k = t_accountId t) then Some (Fin (valQ m k + signedQ t)) else m !! k.
Proof.
  intros Hfin. unfold cashFlows_step, valQ, signedQ, flows_falsy, flows_get.
  rewrite tx_amt_Fin, Math_sign_one. simpl num_mul.
  set (i := t_accountId t).
  assert (Hi : m !! i = None \/ exists q, m !! i = Some (Fin q)).
  { destruct (m !! i) as [v|] eqn:E; [right|by left].
    apply Hfin in E. destruct v; try done. by eexists. }
  destruct (decide (k = i)) as [->|Hne].
  - destruct Hi as [Hi|[q Hi]]; rewrite Hi; simpl.
    + destruct (t_type t); simpl; rewrite ?lookup_insert_eq; simpl;
        rewrite ?lookup_insert_eq; f_equal; f_equal; ring.
    + case_bool_decide as Hq; subst;
      destruct (t_type t); simpl; rewrite ?lookup_insert_eq, ?Hi; simpl;
        rewrite ?lookup_insert_eq, ?Hi; f_equal; f_equal; ring.
  - destruct (match m !! i with Some v => num_falsy v | None => true end);
      destruct (t_type t); simpl; by rewrite ?lookup_insert_ne by done.
Qed.

Lemma cashFlows_step_fin m t : all_fin m -> all_fin (cashFlows_step m t).
Proof.
  intros Hfin k v. rewrite cashFlows_step_lookup by done.
  case_decide; [by intros [= <-] | apply Hfin].
Qed.

Lemma valQ_step m t k :
  all_fin m ->
  valQ (cashFlows_step m t) k =
    if decide (k = t_accountId t) then valQ m k + signedQ t else valQ m k.
Proof.
  intros Hfin. unfold valQ at 1. rewrite cashFlows_step_lookup by done.
  by case_decide.
Qed.

Lemma fold_cashFlows_step_fin txs m :
  all_fin m -> all_fin (fold_left cashFlows_step txs m).
Proof.
  revert m. induction txs as [|t txs IH]; intros m Hfin; simpl; [done|].
  apply IH. by apply cashFlows_step_fin.
Qed.

Lemma fold_cashFlows_step_lookup txs m k :
  all_fin m ->
  fold_left cashFlows_step txs m !! k =
    if decide (k ∈ t_accountId <$> txs) then Some (Fin (valQ m k + net k txs))
    else m !! k.
Proof.
  revert m. induction txs as [|t txs IH]; intros m Hfin.
  - done.
  - cbn [fold_left]. rewrite IH by by apply cashFlows_step_fin.
    rewrite valQ_step, cashFlows_step_lookup by done.
    rewrite fmap_cons, net_cons.
    destruct (decide (k = t_accountId t)) as [->|Hne].
    + rewrite (decide_True (P := _ ∈ _ :: _)) by apply list_elem_of_here.
      rewrite (decide_True (P := _ = _)) by done.
      case_decide as Hin; f_equal; f_equal; [ring|].
      rewrite (net_not_elem_of _ _ Hin). ring.
    + rewrite (decide_False (P := t_accountId t = k)) by done.
      destruct (decide (k ∈ t_accountId <$> txs)) as [Hin|Hnin].
      * rewrite decide_True; [done | by apply list_elem_of_further].
      * rewrite decide_False; [done|].
        rewrite elem_of_cons. intros [?|?]; done.
Qed.

Lemma fold_opening_fin accs m :
  all_fin m -> all_fin (fold_left opening_insert accs m).
Proof.
  revert m. induction accs as [|b accs IH]; intros m Hfin; [done|].
  apply IH. intros k v. unfold opening_insert.
  rewrite lookup_insert. case_decide; [|apply Hfin].
  intros [= <-]. by rewrite ensureNumber_Fin.
Qed.

Lemma fold_opening_not_elem_of accs m k :
  k ∉ a_id <$> accs -> fold_left opening_insert accs m !! k = m !! k.
Proof.
  revert m. induction accs as [|b accs IH]; intros m; [done|].
  rewrite fmap_cons, not_elem_of_cons. intros [Hne Hnin].
  cbn [fold_left]. rewrite IH by done.
  unfold opening_insert. by rewrite lookup_insert_ne.
Qed.

Lemma fold_opening_lookup accs m a :
  NoDup (a_id <$> accs) -> a ∈ accs ->
  fold_left opening_insert accs m !! a_id a = Some (ensureNumber (a_openingBalance a)).
Proof.
  revert m. induction accs as [|b accs IH]; intros m Hnd Hin.
  - by apply elem_of_nil in Hin.
  - rewrite fmap_cons in Hnd. apply NoDup_cons in Hnd as [Hb Hnd].
    cbn [fold_left]. apply elem_of_cons in Hin as [->|Hin].
    + rewrite fold_opening_not_elem_of by done.
      unfold opening_insert. by rewrite lookup_insert_eq.
    + by apply IH.
Qed.

Lemma cashFlows_init_eq accs : cashFlows_init accs = fold_left opening_insert accs ∅.
Proof. done. Qed.

Lemma cashFlows_init_fin accs : all_fin (cashFlows_init accs).
Proof. rewrite cashFlows_init_eq. apply fold_opening_fin. by intros k v. Qed.

Lemma cashFlows_fin accs txs : all_fin (cashFlows accs txs).
Proof. apply fold_cashFlows_step_fin, cashFlows_init_fin. Qed.

Lemma cashFlows_lookup accs txs a :
  NoDup (a_id <$> accs) -> a ∈ accs -> balance_spec accs txs a.
Proof.
  intros Hnd Hin.
  assert (cashFlows accs txs !! a_id a = Some (expected_balance a txs)) as H;
    [|split; [done | unfold balance_of, flows_val; by rewrite H]].
  unfold cashFlows, expected_balance.
  rewrite fold_cashFlows_step_lookup by apply cashFlows_init_fin.
  pose proof (fold_opening_lookup accs ∅ a Hnd Hin) as Hinit.
  rewrite <- cashFlows_init_eq in Hinit.
  unfold valQ. rewrite Hinit, ensureNumber_Fin.
  case_decide as Hk.
  - rewrite net_credited_debited. f_equal. f_equal. ring.
  - apply net_not_elem_of in Hk. rewrite net_credited_debited in Hk.
    f_equal. f_equal.
    transitivity (coerced (a_openingBalance a)
                  + (credited (a_id a) txs - debited (a_id a) txs)); [|ring].
    rewrite Hk. ring.
Qed.

Lemma txs_of_none k P txs :
  (forall t, t ∈ txs -> t_accountId t ≠ k) -> txs_of k P txs = [].
Proof.
  induction txs as [|t txs IH]; intros H; [done|].
  rewrite txs_of_cons, bool_decide_eq_false_2.
  - apply IH. intros t' Ht'. apply H. by apply list_elem_of_further.
  - apply H, list_elem_of_here.
Qed.

Lemma expected_balance_no_txs a txs :
  (forall t, t ∈ txs -> t_accountId t ≠ a_id a) ->
  expected_balance a txs = ensureNumber (a_openingBalance a).
Proof.
  intros H. unfold expected_balance, credited, debited.
  rewrite !txs_of_none by done. rewrite ensureNumber_Fin.
  f_equal. cbn [fmap list_fmap Qc_sum foldr]. ring.
Qed.

Lemma accountBalances_elem st ab :
  ab ∈ accountBalances st ->
  ab_account ab ∈ accounts st /\
  balance ab = balance_of (cashFlows (accounts st) (transactions st)) (ab_account ab) /\
  balanceBase ab = toBase (settings st) (balance ab) (a_currency (ab_account ab)).
Proof.
  unfold accountBalances. rewrite list_elem_of_In, in_map_iff.
  intros (a & <- & Hin). simpl. by rewrite list_elem_of_In.
Qed.

(** Closed (in)equalities between numbers: compare the reduced fractions. *)
Lemma Fin_inj_this a b : Fin a = Fin b -> this a = this b.
Proof. by intros [= ->]. Qed.

Lemma Fin_eq_this a b : this a = this b -> Fin a = Fin b.
Proof. intros H. f_equal. apply Qc_is_canon. by rewrite H. Qed.

(** ** Removing an account *)

Lemma elem_of_List_filter {A} (f : A -> bool) (l : list A) x :
  x ∈ List.filter f l <-> x ∈ l /\ f x = true.
Proof. rewrite !list_elem_of_In. apply filter_In. Qed.



(** ** Goals *)

Lemma removeAccount_ids id s a : a ∈ accounts (removeAccount id s) -> a_id a ≠ id.
Proof.
  simpl. by intros [_ ?%bool_decide_eq_true]%elem_of_List_filter.
Qed.

(** A linked id that matches no account does not count. *)
Lemma progressFor_dangling st g id :
  id ∉ a_id <$> accounts st -> progressFor st g = progressFor st (unlink id g).
Proof.
  intros Hid. unfold progressFor.
  assert (Heq :
    List.filter (fun a => bool_decide (a_id (ab_account a) ∈ g_accountIds g))
                (accountBalances st) =
    List.filter (fun a => bool_decide (a_id (ab_account a) ∈ g_accountIds (unlink id g)))
                (accountBalances st)).
  { apply filter_ext_in. intros ab Hab%list_elem_of_In.
    apply accountBalances_elem in Hab as (Hacc & _).
    apply bool_decide_ext. simpl.
    split; [|by intros [? _]%elem_of_List_filter].
    intros Hin. apply elem_of_List_filter. split; [done|].
    apply bool_decide_eq_true. intros Heq.
    apply Hid. apply list_elem_of_fmap. eauto. }
  by rewrite Heq.
Qed.

(** C10: removing an account leaves the goals as they are, linked ids
    included; the removed id, which no remaining account carries, adds
    nothing to the progress of a goal. *)
Theorem C10_goals_untouched id s :
  goals (removeAccount id s) = goals s /\
  (forall g, progressFor (removeAccount id s) g =
             progressFor (removeAccount id s) (unlink id g)) /\
  (forall st g id', id' ∉ a_id <$> accounts st ->
                    progressFor st g = progressFor st (unlink id' g)).
Proof.
  split; [done|]. split; [|apply progressFor_dangling].
  intros g. apply progressFor_dangling.
  intros (a & Hid & Ha)%list_elem_of_fmap.
  by apply removeAccount_ids in Ha.
Qed.

(** ** Import *)

(** C9: when the text does not parse, the state is kept and one blocking
    notification is shown. *)
Theorem C9_import_parse_failure (JSON_parse : string -> option State) st text :
  JSON_parse text = None ->
  importJSON JSON_parse st text = (st, [ParseFailed]).
Proof. intros H. unfold importJSON. by rewrite H. Qed.

Lemma C9_import_parse_failure_witness :
  parse_nonempty "" = None /\
  importJSON parse_nonempty sample_state "" = (sample_state, [ParseFailed]).
Proof.
  split; [reflexivity|].
  apply (C9_import_parse_failure parse_nonempty sample_state ""). reflexivity.
Defined.

(** ** Alerts *)

Lemma num_ge_spec x y : num_ge x y = true <-> num_le y x.
Proof.
  destruct x, y; simpl; try done; try (split; done).
  apply bool_decide_eq_true.
Qed.

(** C4: a drift entry is among the alerts exactly when the absolute value
    of its diff is at least the threshold (5 when none is set); an entry
    with diff 5 under threshold 5 is alerting. *)
Theorem C4_alerting_iff_at_least_threshold :
  (forall st d, d ∈ rebalanceAlerts st <->
                d ∈ drift st /\ num_le (threshold_of st) (Math_abs (d_diff d))) /\
  (forall thr d, alerting thr d = true <->
                 num_le (default (Fin (Qc_of_Z 5)) thr) (Math_abs (d_diff d))) /\
  (forall t tg ac,
      alerting (Some (Fin (Qc_of_Z 5))) (mkDriftEntry t tg ac (Fin (Qc_of_Z 5))) = true).
Proof.
  split; [|split].
  - intros st d. unfold rebalanceAlerts, threshold_of.
    rewrite elem_of_List_filter. unfold alerting. by rewrite num_ge_spec.
  - intros thr d. unfold alerting. apply num_ge_spec.
  - intros t tg ac. by vm_compute.
Qed.

(** ** The order on numbers *)

Lemma num_le_trans x y z : num_le x y -> num_le y z -> num_le x z.
Proof.
  destruct x, y, z; simpl; try done. apply Qcle_trans.
Qed.

Lemma num_le_total x y : x ≠ NaN -> y ≠ NaN -> num_le x y \/ num_le y x.
Proof.
  destruct x, y; simpl; intros; try done; try tauto.
  destruct (Qclt_le_dec q q0); [left; by apply Qclt_le_weak | by right].
Qed.

Lemma num_le_refl x : x ≠ NaN -> num_le x x.
Proof. intros H. by destruct (num_le_total x x H H). Qed.

Lemma num_gt_spec x y : num_gt x y = true <-> num_le y x /\ ~ num_le x y.
Proof.
  destruct x, y; simpl; try tauto; try (split; [done | tauto]).
  rewrite bool_decide_eq_true. rewrite Qclt_nge.
  split; [|tauto]. intros H. split; [|done].
  apply Qclt_le_weak. by apply Qclt_nge.
Qed.

(** The sign of a difference, as comparators use it. *)
Lemma num_sub_pos a b :
  a ≠ NaN -> b ≠ NaN ->
  num_gt (num_sub b a) (Fin 0) = true <-> num_le a b /\ ~ num_le b a.
Proof.
  intros Ha Hb. destruct a, b; simpl; try done; try tauto;
    try (split; [done | tauto]).
  rewrite bool_decide_eq_true, <- Qclt_minus_iff, Qclt_nge.
  split; [|tauto]. intros H. split; [|done].
  apply Qclt_le_weak. by apply Qclt_nge.
Qed.

Lemma num_sub_not_pos a b :
  a ≠ NaN -> b ≠ NaN ->
  num_gt (num_sub b a) (Fin 0) = false -> num_le b a.
Proof.
  intros Ha Hb H.
  destruct (num_le_total a b Ha Hb) as [Hab|]; [|done].
  destruct (num_le_total b a Hb Ha) as [|_]; [done|].
  apply not_true_iff_false in H. rewrite num_sub_pos in H by done.
  destruct a, b; simpl in *; try done; try tauto.
  destruct (Qclt_le_dec q q0) as [Hlt|]; [|done].
  exfalso. apply H. split; [done|]. by apply Qclt_not_le.
Qed.

Lemma Math_abs_not_NaN x : x ≠ NaN -> Math_abs x ≠ NaN.
Proof. by destruct x. Qed.

(** ** [Array.prototype.sort] *)

Section ArraySort.
Context {A : Type} (comparefn : A -> A -> number).

Lemma sort_insert_Permutation x l : sort_insert comparefn x l ≡ₚ x :: l.
Proof.
  induction l as [|y l IH]; simpl; [done|].
  destruct (num_gt (comparefn x y) (Fin 0)); [|done].
  rewrite IH. apply perm_swap.
Qed.

Lemma Array_sort_Permutation l : Array_sort comparefn l ≡ₚ l.
Proof.
  induction l as [|x l IH]; simpl; [done|].
  by rewrite sort_insert_Permutation, IH.
Qed.

(** On the elements satisfying [P] the comparator is consistent with
    the transitive order [le]. *)
Variables (P : A -> Prop) (le orig : A -> A -> Prop).
Hypothesis le_trans : forall x y z, le x y -> le y z -> le x z.
Hypothesis cmp_keep :
  forall x y, P x -> P y -> num_gt (comparefn x y) (Fin 0) = false -> le x y.
Hypothesis cmp_swap :
  forall x y, P x -> P y ->
    num_gt (comparefn x y) (Fin 0) = true -> le y x /\ ~ le x y.

Lemma sort_insert_sorted x l :
  P x -> Forall P l -> Forall (orig x) l ->
  StronglySorted (stable_before le orig) l ->
  StronglySorted (stable_before le orig) (sort_insert comparefn x l).
Proof.
  intros Hx. induction l as [|y l IH]; intros HP Horig Hs; simpl.
  - repeat constructor.
  - apply Forall_cons in HP as [Hy HP].
    apply Forall_cons in Horig as [Hxy Horig].
    apply StronglySorted_inv in Hs as [Hs Hall].
    destruct (num_gt (comparefn x y) (Fin 0)) eqn:E.
    + destruct (cmp_swap x y Hx Hy E) as [Hle Hnle].
      constructor; [by apply IH|].
      rewrite sort_insert_Permutation. constructor; [|done].
      split; [done | by intros ?].
    + pose proof (cmp_keep x y Hx Hy E) as Hle.
      constructor; [by constructor|].
      constructor; [by split|].
      rewrite Forall_forall in Hall, Horig. apply Forall_forall.
      intros z Hz. destruct (Hall z Hz) as [Hyz _].
      split; [by eapply le_trans | intros _; by apply Horig].
Qed.

Lemma Array_sort_sorted l :
  Forall P l -> StronglySorted orig l ->
  StronglySorted (stable_before le orig) (Array_sort comparefn l).
Proof.
  induction l as [|x l IH]; intros HP Hs; simpl; [constructor|].
  apply Forall_cons in HP as [Hx HP].
  apply StronglySorted_inv in Hs as [Hs Hall].
  apply sort_insert_sorted; try done.
  - by rewrite Array_sort_Permutation.
  - by rewrite Array_sort_Permutation.
  - by apply IH.
Qed.
End ArraySort.

Lemma StronglySorted_lookup {A} (R : A -> A -> Prop) l i j x y :
  StronglySorted R l -> (i < j)%nat -> l !! i = Some x -> l !! j = Some y -> R x y.
Proof.
  intros Hs. revert i j. induction Hs as [|z l Hs IH Hall]; intros i j Hij Hi Hj.
  - done.
  - destruct j as [|j]; [lia|]. destruct i as [|i]; simpl in *.
    + injection Hi as ->. rewrite Forall_forall in Hall.
      apply Hall. by eapply list_elem_of_lookup_2.
    + apply (IH i j); [lia | done | done].
Qed.

(** ** Drift *)

Lemma by_abs_diff_keep x y :
  d_diff x ≠ NaN -> d_diff y ≠ NaN ->
  num_gt (by_abs_diff x y) (Fin 0) = false -> abs_desc x y.
Proof.
  intros Hx Hy. unfold by_abs_diff, abs_desc.
  apply num_sub_not_pos; by apply Math_abs_not_NaN.
Qed.

Lemma by_abs_diff_swap x y :
  d_diff x ≠ NaN -> d_diff y ≠ NaN ->
  num_gt (by_abs_diff x y) (Fin 0) = true -> abs_desc y x /\ ~ abs_desc x y.
Proof.
  intros Hx Hy. unfold by_abs_diff, abs_desc.
  apply num_sub_pos; by apply Math_abs_not_NaN.
Qed.

Lemma drift_entries_enum target actual :
  StronglySorted enum_before (map (drift_entry target actual) ASSET_TYPES).
Proof.
  unfold ASSET_TYPES, enum_before. simpl.
  repeat (constructor; [|repeat constructor; simpl; lia]). constructor.
Qed.

Lemma computeDrift_sorted target actual :
  (forall t, d_diff (drift_entry target actual t) ≠ NaN) ->
  StronglySorted drift_before (computeDrift target actual).
Proof.
  intros Hnan. unfold computeDrift, drift_before.
  apply (Array_sort_sorted by_abs_diff (fun d => d_diff d ≠ NaN)).
  - intros x y z. apply (fun H1 H2 => num_le_trans _ _ _ H2 H1).
  - apply by_abs_diff_keep.
  - apply by_abs_diff_swap.
  - apply Forall_forall. intros d (t & -> & _)%list_elem_of_fmap. apply Hnan.
  - apply drift_entries_enum.
Qed.

(** Whatever stable sorting algorithm the engine runs, the result is the
    same: the sorted list is determined by its elements. *)
Lemma computeDrift_unique target actual l :
  (forall t, d_diff (drift_entry target actual t) ≠ NaN) ->
  l ≡ₚ map (drift_entry target actual) ASSET_TYPES ->
  StronglySorted drift_before l ->
  l = computeDrift target actual.
Proof.
  intros Hnan Hp Hs.
  apply (StronglySorted_unique_strong drift_before); [|done| |].
  - intros x y _ _ [Hxy Hx] [Hyx Hy].
    specialize (Hx Hyx). specialize (Hy Hxy). unfold enum_before in *. lia.
  - by apply computeDrift_sorted.
  - rewrite Hp. symmetry. apply Array_sort_Permutation.
Qed.

(** C3 (amended): when no diff is NaN, the drift list holds the seven
    entries in descending order of the absolute value of diff, and two
    entries with the same absolute diff are in the order of [ASSET_TYPES]. *)
Theorem C3_drift_sorted_stable target actual :
  (forall t, d_diff (drift_entry target actual t) ≠ NaN) ->
  computeDrift target actual ≡ₚ map (drift_entry target actual) ASSET_TYPES /\
  forall i j x y,
    (i < j)%nat ->
    computeDrift target actual !! i = Some x ->
    computeDrift target actual !! j = Some y ->
    num_le (Math_abs (d_diff y)) (Math_abs (d_diff x)) /\
    (Math_abs (d_diff x) = Math_abs (d_diff y) ->
     (type_index (d_type x) < type_index (d_type y))%nat).
Proof.
  intros Hnan. split; [apply Array_sort_Permutation|].
  intros i j x y Hij Hx Hy.
  destruct (StronglySorted_lookup _ _ i j x y
              (computeDrift_sorted target actual Hnan) Hij Hx Hy) as [Hle Htie].
  split; [exact Hle|].
  intros Heq. apply Htie. unfold abs_desc. rewrite Heq.
  apply num_le_refl. unfold abs_desc in Hle. rewrite Heq in Hle.
  intros E. by rewrite E in Hle.
Qed.

Lemma C3_drift_sorted_stable_witness :
  (forall t, d_diff (drift_entry (allocation (targets sample_state))
                                 (allocationActual sample_state) t) ≠ NaN) /\
  drift sample_state !! 0%nat =
    Some (drift_entry (allocation (targets sample_state))
                      (allocationActual sample_state) Cash) /\
  forall i j x y,
    (i < j)%nat ->
    drift sample_state !! i = Some x -> drift sample_state !! j = Some y ->
    num_le (Math_abs (d_diff y)) (Math_abs (d_diff x)) /\
    (Math_abs (d_diff x) = Math_abs (d_diff y) ->
     (type_index (d_type x) < type_index (d_type y))%nat).
Proof.
  assert (H : forall t, d_diff (drift_entry (allocation (targets sample_state))
                                            (allocationActual sample_state) t) ≠ NaN).
  { intros t E. destruct t; vm_compute in E; discriminate E. }
  split; [exact H|]. split; [by vm_compute|].
  exact (proj2 (C3_drift_sorted_stable _ _ H)).
Defined.

(** C3 as stated fails when an actual percentage is NaN: with a zero
    exchange rate the Cash percentage is NaN, the drift list holds an entry
    whose diff is NaN, and that entry is not comparable with its
    neighbour. *)
Lemma C3_nan_counterexample :
  allocationActual zero_rate_state !! Cash = Some NaN /\
  (exists x, x ∈ drift zero_rate_state /\ d_diff x = NaN) /\
  ~ (forall i j x y,
       (i < j)%nat ->
       drift zero_rate_state !! i = Some x -> drift zero_rate_state !! j = Some y ->
       num_le (Math_abs (d_diff y)) (Math_abs (d_diff x))).
Proof.
  split; [by vm_compute|].
  assert (H0 : exists x, drift zero_rate_state !! 0%nat = Some x /\ d_diff x = NaN).
  { eexists. split; [by vm_compute | done]. }
  assert (H1 : exists y, drift zero_rate_state !! 1%nat = Some y).
  { eexists. by vm_compute. }
  destruct H0 as (x & Hx & Hnan), H1 as (y & Hy).
  split.
  - exists x. split; [by eapply list_elem_of_lookup_2 | done].
  - intros H. specialize (H 0%nat 1%nat x y (le_n 1) Hx Hy).
    rewrite Hnan in H. by destruct (Math_abs (d_diff y)).
Qed.

(** ** Rebalancing suggestion *)

Lemma StronglySorted_any {A} (l : list A) : StronglySorted any_order l.
Proof.
  induction l as [|x l IH]; constructor; [done|]. by apply Forall_forall.
Qed.

Lemma num_gt_not_NaN_l x y : num_gt x y = true -> x ≠ NaN.
Proof. by destruct x. Qed.

Lemma num_gt_not_NaN_r x y : num_gt x y = true -> y ≠ NaN.
Proof. by destruct x, y. Qed.

Lemma is_over_not_NaN d : is_over d = true -> d_diff d ≠ NaN.
Proof. apply num_gt_not_NaN_l. Qed.

Lemma is_under_not_NaN d : is_under d = true -> d_diff d ≠ NaN.
Proof. apply num_gt_not_NaN_r. Qed.

(** The head of a sorted list is first in the order among its elements. *)
Lemma head_sorted_first {A} (le orig : A -> A -> Prop) (l : list A) o :
  (forall x, x ∈ l -> le x x) ->
  StronglySorted (stable_before le orig) l -> head l = Some o ->
  o ∈ l /\ forall d, d ∈ l -> le o d.
Proof.
  intros Hrefl Hs Hhd. destruct l as [|z l]; [done|]. injection Hhd as ->.
  apply StronglySorted_inv in Hs as [_ Hall]. rewrite Forall_forall in Hall.
  split; [apply list_elem_of_here|].
  intros d [->|Hd]%elem_of_cons; [apply Hrefl, list_elem_of_here | by apply Hall].
Qed.

Lemma head_Array_sort_None {A} (cmp : A -> A -> number) l :
  head (Array_sort cmp l) = None -> l = [].
Proof.
  intros H. apply Permutation_nil_r. rewrite <- (Array_sort_Permutation cmp l).
  by destruct (Array_sort cmp l).
Qed.

Lemma most_overweight_Some dr o :
  most_overweight dr = Some o ->
  o ∈ dr /\ is_over o = true /\
  forall d, d ∈ dr -> is_over d = true -> num_le (d_diff d) (d_diff o).
Proof.
  unfold most_overweight. fold is_over. intros Hhd.
  set (cmp := fun a b : DriftEntry => num_sub (d_diff b) (d_diff a)) in *.
  assert (Hs : StronglySorted (stable_before diff_desc any_order)
                 (Array_sort cmp (List.filter is_over dr))).
  { apply (Array_sort_sorted cmp (fun d => is_over d = true)).
    - intros x y z. apply (fun H1 H2 => num_le_trans _ _ _ H2 H1).
    - intros x y Hx%is_over_not_NaN Hy%is_over_not_NaN. by apply num_sub_not_pos.
    - intros x y Hx%is_over_not_NaN Hy%is_over_not_NaN. by apply num_sub_pos.
    - apply Forall_forall. by intros d [_ ?]%elem_of_List_filter.
    - apply StronglySorted_any. }
  assert (Hrefl : forall x, x ∈ Array_sort cmp (List.filter is_over dr) -> diff_desc x x).
  { intros x. rewrite Array_sort_Permutation.
    intros [_ Hx%is_over_not_NaN]%elem_of_List_filter. by apply num_le_refl. }
  destruct (head_sorted_first _ _ _ o Hrefl Hs Hhd) as [Ho Hmax].
  rewrite Array_sort_Permutation in Ho. apply elem_of_List_filter in Ho as [Ho Hpos].
  repeat split; try done. intros d Hd Hdpos. apply Hmax.
  rewrite Array_sort_Permutation. by apply elem_of_List_filter.
Qed.

Lemma most_overweight_None dr :
  most_overweight dr = None <-> forall d, d ∈ dr -> is_over d = false.
Proof.
  unfold most_overweight. fold is_over. split.
  - intros Hnil%head_Array_sort_None d Hd.
    destruct (is_over d) eqn:E; [|done].
    assert (d ∈ List.filter is_over dr) as Hin by by apply elem_of_List_filter.
    rewrite Hnil in Hin. by apply elem_of_nil in Hin.
  - intros H. replace (List.filter is_over dr) with (@nil DriftEntry); [done|].
    symmetry. induction dr as [|d dr IH]; [done|]. simpl.
    rewrite (H d) by apply list_elem_of_here.
    apply IH. intros d' Hd'. apply H. by apply list_elem_of_further.
Qed.

Lemma most_underweight_Some dr u :
  most_underweight dr = Some u ->
  u ∈ dr /\ is_under u = true /\
  forall d, d ∈ dr -> is_under d = true -> num_le (d_diff u) (d_diff d).
Proof.
  unfold most_underweight. fold is_under. intros Hhd.
  set (cmp := fun a b : DriftEntry => num_sub (d_diff a) (d_diff b)) in *.
  assert (Hs : StronglySorted (stable_before diff_asc any_order)
                 (Array_sort cmp (List.filter is_under dr))).
  { apply (Array_sort_sorted cmp (fun d => is_under d = true)).
    - intros x y z. apply num_le_trans.
    - intros x y Hx%is_under_not_NaN Hy%is_under_not_NaN. by apply num_sub_not_pos.
    - intros x y Hx%is_under_not_NaN Hy%is_under_not_NaN. by apply num_sub_pos.
    - apply Forall_forall. by intros d [_ ?]%elem_of_List_filter.
    - apply StronglySorted_any. }
  assert (Hrefl : forall x, x ∈ Array_sort cmp (List.filter is_under dr) -> diff_asc x x).
  { intros x. rewrite Array_sort_Permutation.
    intros [_ Hx%is_under_not_NaN]%elem_of_List_filter. by apply num_le_refl. }
  destruct (head_sorted_first _ _ _ u Hrefl Hs Hhd) as [Hu Hmin].
  rewrite Array_sort_Permutation in Hu. apply elem_of_List_filter in Hu as [Hu Hneg].
  repeat split; try done. intros d Hd Hdneg. apply Hmin.
  rewrite Array_sort_Permutation. by apply elem_of_List_filter.
Qed.

Lemma most_underweight_None dr :
  most_underweight dr = None <-> forall d, d ∈ dr -> is_under d = false.
Proof.
  unfold most_underweight. fold is_under. split.
  - intros Hnil%head_Array_sort_None d Hd.
    destruct (is_under d) eqn:E; [|done].
    assert (d ∈ List.filter is_under dr) as Hin by by apply elem_of_List_filter.
    rewrite Hnil in Hin. by apply elem_of_nil in Hin.
  - intros H. replace (List.filter is_under dr) with (@nil DriftEntry); [done|].
    symmetry. induction dr as [|d dr IH]; [done|]. simpl.
    rewrite (H d) by apply list_elem_of_here.
    apply IH. intros d' Hd'. apply H. by apply list_elem_of_further.
Qed.

Lemma Math_min_spec a b :
  a ≠ NaN -> b ≠ NaN ->
  (Math_min a b = a /\ num_le a b) \/ (Math_min a b = b /\ num_le b a).
Proof.
  intros Ha Hb.
  assert (Hmin : Math_min a b = if num_gt a b then b else a) by by destruct a, b.
  rewrite Hmin. destruct (num_gt a b) eqn:E.
  - right. split; [done|]. by apply num_gt_spec in E as [? _].
  - left. split; [done|].
    destruct (num_le_total a b Ha Hb) as [|Hba]; [done|].
    apply not_true_iff_false in E. rewrite num_gt_spec in E.
    destruct a, b; simpl in *; try done; try tauto.
    destruct (Qclt_le_dec q0 q) as [Hlt|]; [|done].
    exfalso. apply E. split; [done|]. by apply Qclt_not_le.
Qed.

Lemma num_neg_not_NaN x : x ≠ NaN -> num_neg x ≠ NaN.
Proof. by destruct x. Qed.

(** C8: when the drift list has an entry with positive diff and one with
    negative diff, the suggestion names an entry of largest positive diff
    and an entry of lowest negative diff, and moves
    min(overweight diff, - underweight diff) percent of the total assets
    from the first to the second; when one of the two sides is empty, the
    answer is the no-suggestion notice. *)
Theorem C8_suggestRebalance_picks_extremes dr total t :
  ((exists d, d ∈ dr /\ is_over d = true) ->
   (exists d, d ∈ dr /\ is_under d = true) ->
   exists over under,
     over ∈ dr /\ under ∈ dr /\ is_over over = true /\ is_under under = true /\
     (forall d, d ∈ dr -> is_over d = true -> num_le (d_diff d) (d_diff over)) /\
     (forall d, d ∈ dr -> is_under d = true -> num_le (d_diff under) (d_diff d)) /\
     let movePct := Math_min (d_diff over) (num_neg (d_diff under)) in
     ((movePct = d_diff over /\ num_le movePct (num_neg (d_diff under))) \/
      (movePct = num_neg (d_diff under) /\ num_le movePct (d_diff over))) /\
     suggestRebalance dr total t =
       Suggestion (d_type over) (d_type under) movePct
                  (num_mul total (num_div movePct hundred)))
  /\
  ((forall d, d ∈ dr -> is_over d = false) \/ (forall d, d ∈ dr -> is_under d = false) ->
   suggestRebalance dr total t = NoSuggestion).
Proof.
  unfold suggestRebalance. split.
  - intros (d1 & Hd1 & Hover) (d2 & Hd2 & Hunder).
    destruct (most_overweight dr) as [o|] eqn:Eo.
    2: { rewrite (proj1 (most_overweight_None dr) Eo d1 Hd1) in Hover. done. }
    destruct (most_underweight dr) as [u|] eqn:Eu.
    2: { rewrite (proj1 (most_underweight_None dr) Eu d2 Hd2) in Hunder. done. }
    apply most_overweight_Some in Eo as (Ho & Hopos & Homax).
    apply most_underweight_Some in Eu as (Hu & Huneg & Humin).
    exists o, u. split_and!; try done.
    destruct (Math_min_spec (d_diff o) (num_neg (d_diff u))) as [[-> H]|[-> H]];
      [by apply is_over_not_NaN | by apply num_neg_not_NaN, is_under_not_NaN
      | by left | by right].
  - intros [H|H].
    + by rewrite (proj2 (most_overweight_None dr) H).
    + rewrite (proj2 (most_underweight_None dr) H). by destruct (most_overweight dr).
Qed.

(** On the sample list: Stock is 10 over, Cash is 7 under; 7 percent of
    total assets 2,000,000, that is 140,000, go from Stock to Cash. *)
Example suggestRebalance_sample :
  suggestRebalance sample_drift (Fin (Qc_of_Z 2000000)) Other =
    Suggestion Stock Cash (Fin (Qc_of_Z 7)) (Fin (Qc_of_Z 140000)).
Proof.
  assert (H : forall a b a' b' : Qc, this a = this a' -> this b = this b' ->
              Suggestion Stock Cash (Fin a) (Fin b) = Suggestion Stock Cash (Fin a') (Fin b')).
  { intros a b a' b' Ha Hb. by rewrite (Fin_eq_this a a' Ha), (Fin_eq_this b b' Hb). }
  by apply H.
Qed.

(** ** Totals per asset type *)

Lemma sum_fold l q :
  fold_left (fun a b => num_add a (if Number_isFinite b then b else Fin 0)) l (Fin q)
  = Fin (q + Qc_sum (fin_or_zero <$> l)).
Proof.
  revert q. induction l as [|x l IH]; intros q.
  - cbn [fold_left fmap list_fmap Qc_sum foldr]. f_equal. ring.
  - cbn [fold_left]. rewrite fmap_cons, Qc_sum_cons.
    destruct x; cbn [Number_isFinite num_add fin_or_zero]; rewrite IH; f_equal; ring.
Qed.

Lemma sum_closed l : sum l = Fin (Qc_sum (fin_or_zero <$> l)).
Proof. unfold sum. rewrite sum_fold. f_equal. ring. Qed.

(** [sum] does not depend on the order of the array. *)
Lemma sum_Permutation l1 l2 : l1 ≡ₚ l2 -> sum l1 = sum l2.
Proof.
  intros Hp. rewrite !sum_closed. f_equal.
  apply Qc_sum_Permutation. by apply fmap_Permutation.
Qed.

Lemma Object_values_insert (m : gmap AssetType number) i x :
  m !! i = None -> Object_values (<[i:=x]> m) ≡ₚ x :: Object_values m.
Proof.
  intros Hi. unfold Object_values.
  by rewrite (map_to_list_insert m i x Hi).
Qed.

Lemma type_total_insert (m : gmap AssetType number) i x :
  m !! i = None ->
  Qc_sum (type_total (<[i:=x]> m) <$> ASSET_TYPES) =
  fin_or_zero x + Qc_sum (type_total m <$> ASSET_TYPES).
Proof.
  intros Hi. unfold ASSET_TYPES, type_total.
  cbn [fmap list_fmap Qc_sum foldr].
  destruct i; rewrite lookup_insert_eq, !lookup_insert_ne, Hi by done;
    cbn [from_option id fin_or_zero]; ring.
Qed.

Lemma sum_Object_values (m : gmap AssetType number) :
  sum (Object_values m) = Fin (Qc_sum (type_total m <$> ASSET_TYPES)).
Proof.
  induction m as [|i x m Hi IH] using map_ind.
  - unfold Object_values. rewrite map_to_list_empty. by apply Fin_eq_this.
  - rewrite (sum_Permutation _ _ (Object_values_insert m i x Hi)).
    rewrite sum_closed in *. injection IH as IH.
    rewrite fmap_cons, Qc_sum_cons, IH. by rewrite type_total_insert.
Qed.

Lemma totalAssetsBase_closed st :
  totalAssetsBase st = Fin (Qc_sum (type_total (totalsByType st) <$> ASSET_TYPES)).
Proof. apply sum_Object_values. Qed.

Lemma computeAllocation_lookup totals total t :
  computeAllocation totals total !! t = Some (allocation_of totals total t).
Proof.
  unfold computeAllocation, ASSET_TYPES. cbn [fold_left].
  destruct t; rewrite ?lookup_insert_ne by done; apply lookup_insert_eq.
Qed.

(** ** Base-currency amounts are finite when no division by zero occurs *)

Lemma USD_KRW_Fin s : exists r, USD_KRW s = Fin r.
Proof.
  unfold USD_KRW, ensureNumber_or.
  destruct (Number (usdKrw s)); simpl; by eexists.
Qed.

Lemma Qc_sgn_Eq q : Qc_sgn q = Eq <-> q = 0.
Proof. unfold Qc_sgn. symmetry. apply Qceq_alt. Qed.

Lemma num_div_Fin a b : b ≠ 0 -> num_div (Fin a) (Fin b) = Fin (a / b).
Proof.
  intros Hb. simpl. destruct (Qc_sgn b) eqn:E; [|done|done].
  by apply Qc_sgn_Eq in E.
Qed.

Lemma toBase_Fin s q c : convertible s -> exists q', toBase s (Fin q) c = Fin q'.
Proof.
  intros Hconv. unfold toBase. destruct (USD_KRW_Fin s) as [r Hr].
  case_decide; [by eexists|].
  case_decide; [rewrite Hr; by eexists|].
  case_decide as Hk; [|by eexists].
  destruct Hk as [-> Hbase]. rewrite Hr.
  destruct Hconv as [Hkrw|Hrate]; [congruence|].
  rewrite num_div_Fin; [by eexists|]. intros ->. by rewrite Hr in Hrate.
Qed.

Lemma balance_of_Fin flows a : exists q, balance_of flows a = Fin q.
Proof. unfold balance_of. rewrite ensureNumber_Fin. by eexists. Qed.

Lemma balanceBase_fin st ab :
  convertible (settings st) -> ab ∈ accountBalances st ->
  Number_isFinite (balanceBase ab) = true.
Proof.
  intros Hconv (_ & Hb & ->)%accountBalances_elem.
  destruct (balance_of_Fin (cashFlows (accounts st) (transactions st)) (ab_account ab))
    as [q Hq].
  rewrite Hb, Hq.
  by destruct (toBase_Fin (settings st) q (a_currency (ab_account ab)) Hconv) as [q' ->].
Qed.

Lemma marketValueBase_fin st p :
  convertible (settings st) -> p ∈ positionsMV st ->
  Number_isFinite (marketValueBase p) = true.
Proof.
  intros Hconv (pos & -> & _)%list_elem_of_fmap. simpl.
  rewrite !ensureNumber_Fin. simpl num_mul.
  by destruct (toBase_Fin (settings st) (coerced (p_qty pos) * coerced (p_lastPrice pos))
                          (p_currency pos) Hconv) as [q' ->].
Qed.

Lemma totals_add_fin totals t x :
  totals_fin totals -> Number_isFinite x = true -> totals_fin (totals_add totals t x).
Proof.
  intros Hfin Hx t' v. unfold totals_add. rewrite lookup_insert.
  case_decide; [|apply Hfin]. intros [= <-].
  destruct x as [q| | |]; try done.
  destruct (totals !! t) as [w|] eqn:E; simpl; [|done].
  apply Hfin in E. by destruct w.
Qed.

Lemma fold_totals_add_fin {A} (key : A -> AssetType) (value : A -> number) l totals :
  totals_fin totals ->
  (forall x, x ∈ l -> Number_isFinite (value x) = true) ->
  totals_fin (fold_left (fun m x => totals_add m (key x) (value x)) l totals).
Proof.
  revert totals. induction l as [|x l IH]; intros totals Hfin Hl; [done|].
  cbn [fold_left]. apply IH.
  - apply totals_add_fin; [done|]. apply Hl, list_elem_of_here.
  - intros y Hy. apply Hl. by apply list_elem_of_further.
Qed.

Lemma totalsByType_fin st : convertible (settings st) -> totals_fin (totalsByType st).
Proof.
  intros Hconv. unfold totalsByType.
  apply (fold_totals_add_fin (fun p => p_assetType (pv_position p)) marketValueBase).
  - apply (fold_totals_add_fin (fun a => a_type (ab_account a)) balanceBase).
    + by intros t v.
    + intros ab. by apply balanceBase_fin.
  - intros p. by apply marketValueBase_fin.
Qed.

(** ** Allocation *)

Lemma totals_fin_default totals t :
  totals_fin totals -> default (Fin 0) (totals !! t) = Fin (type_total totals t).
Proof.
  intros Hfin. unfold type_total.
  destruct (totals !! t) as [v|] eqn:E; simpl; [|done].
  apply Hfin in E. by destruct v.
Qed.

Lemma num_gt_zero_Fin q : num_gt (Fin q) (Fin 0) = true <-> 0 < q.
Proof. simpl. apply bool_decide_eq_true. Qed.

Lemma Qc_pos_nonzero T : 0 < T -> T ≠ 0.
Proof. intros HT ->. by apply (Qclt_not_eq 0 0). Qed.

Lemma allocation_of_fin totals T t :
  totals_fin totals -> 0 < T ->
  allocation_of totals (Fin T) t = Fin (type_total totals t / T * Qc_of_Z 100).
Proof.
  intros Hfin HT. unfold allocation_of.
  rewrite (proj2 (num_gt_zero_Fin T) HT), totals_fin_default by done.
  rewrite num_div_Fin; [done | by apply Qc_pos_nonzero].
Qed.

Lemma allocation_of_not_positive totals total t :
  num_gt total (Fin 0) = false -> allocation_of totals total t = Fin 0.
Proof. intros H. unfold allocation_of. by rewrite H. Qed.

Lemma percentages_sum_100 totals T :
  totals_fin totals -> 0 < T ->
  Qc_sum (type_total totals <$> ASSET_TYPES) = T ->
  num_sum (map (allocation_of totals (Fin T)) ASSET_TYPES) = hundred.
Proof.
  intros Hfin HT Hsum.
  assert (HT0 : T ≠ 0) by by apply Qc_pos_nonzero.
  unfold ASSET_TYPES in *. cbn [map num_sum foldr].
  rewrite !allocation_of_fin by done.
  cbn [fmap list_fmap Qc_sum foldr] in Hsum.
  cbn [num_add]. unfold hundred. f_equal.
  revert Hsum HT0.
  generalize (type_total totals Cash) (type_total totals Stock)
    (type_total totals ETF) (type_total totals Bond) (type_total totals Crypto)
    (type_total totals RealEstate) (type_total totals Other) (Qc_of_Z 100).
  intros a1 a2 a3 a4 a5 a6 a7 c <- H0. rewrite Qcplus_0_r in H0. field. exact H0.
Qed.

Lemma percentages_eq st :
  percentages st =
    map (allocation_of (totalsByType st) (totalAssetsBase st)) ASSET_TYPES.
Proof.
  unfold percentages, allocationActual. apply map_ext. intros t.
  by rewrite computeAllocation_lookup.
Qed.

(** ** Which outputs are finite *)

Lemma ensureNumber_not_finite v :
  Number_isFinite (Number v) = false -> ensureNumber v = Fin 0.
Proof. intros H. unfold ensureNumber, ensureNumber_or. by rewrite H. Qed.

Lemma balance_fin st ab :
  ab ∈ accountBalances st -> Number_isFinite (balance ab) = true.
Proof.
  intros (_ & -> & _)%accountBalances_elem.
  by destruct (balance_of_Fin (cashFlows (accounts st) (transactions st))
                              (ab_account ab)) as [q ->].
Qed.

Lemma valuation_fin st p :
  p ∈ positionsMV st ->
  Number_isFinite (marketValue p) = true /\
  Number_isFinite (pnl p) = true /\
  (coerced (p_avgPrice (pv_position p)) ≠ 0 -> Number_isFinite (pnlPct p) = true).
Proof.
  intros (pos & -> & _)%list_elem_of_fmap. unfold valuation. cbn [marketValue pnl pnlPct pv_position].
  rewrite !ensureNumber_Fin. split; [done|]. split; [done|].
  intros Havg. by rewrite num_div_Fin.
Qed.

Lemma allocationActual_fin st t :
  convertible (settings st) -> exists q, allocationActual st !! t = Some (Fin q).
Proof.
  intros Hconv. unfold allocationActual. rewrite computeAllocation_lookup.
  rewrite totalAssetsBase_closed.
  set (T := Qc_sum (type_total (totalsByType st) <$> ASSET_TYPES)).
  destruct (num_gt (Fin T) (Fin 0)) eqn:E.
  - apply num_gt_zero_Fin in E.
    rewrite allocation_of_fin by (done || by apply totalsByType_fin). by eexists.
  - rewrite allocation_of_not_positive by done. by eexists.
Qed.

Lemma drift_elem st d :
  d ∈ drift st ->
  exists t, d = drift_entry (allocation (targets st)) (allocationActual st) t.
Proof.
  unfold drift, computeDrift. rewrite Array_sort_Permutation.
  intros (t & -> & _)%list_elem_of_fmap. by exists t.
Qed.

Lemma drift_fin st d :
  convertible (settings st) -> targets_fin (targets st) ->
  d ∈ drift st -> Number_isFinite (d_diff d) = true.
Proof.
  intros Hconv Htg [t ->]%drift_elem. unfold drift_entry. cbn [d_diff].
  destruct (allocationActual_fin st t Hconv) as [q ->].
  destruct (allocation (targets st) !! t) as [v|] eqn:E; simpl; [|done].
  apply Htg in E. by destruct v.
Qed.

(** ** Scenarios of the specification *)

(** Opening balance 2,000,000 and one deposit of 1,000,000 without fee or
    tax give 3,000,000. *)
Example scenario_deposit :
  map balance (accountBalances sample_state) = [Fin (Qc_of_Z 3000000)].
Proof.
  assert (H : forall a b : Qc, this a = this b -> [Fin a] = [Fin b]).
  { intros a b Hab. by rewrite (Fin_eq_this a b Hab). }
  by apply H.
Qed.

(** Quantity 20 bought at 70,000 and marked at 81,000: P/L 220,000, that
    is 110/7 percent. *)
Example scenario_pnl :
  map (fun p => (pnl p, pnlPct p)) (take 1 (positionsMV seed)) =
    [(Fin (Qc_of_Z 220000), Fin (Qc_of_Z 110 / Qc_of_Z 7))].
Proof.
  assert (H : forall a b a' b' : Qc, this a = this a' -> this b = this b' ->
              [(Fin a, Fin b)] = [(Fin a', Fin b')]).
  { intros a b a' b' Ha Hb. by rewrite (Fin_eq_this a a' Ha), (Fin_eq_this b b' Hb). }
  by apply H.
Qed.

(** On the seed data ETF, Bond, Cash and Real Estate are at least 5 points
    away from their targets. *)
Example scenario_alerts :
  map d_type (rebalanceAlerts seed) = [ETF; Bond; Cash; RealEstate].
Proof. by vm_compute. Qed.

(** * Further properties of the engine *)

(** ** Addition of numbers *)

Lemma num_add_comm x y : num_add x y = num_add y x.
Proof. destruct x, y; simpl; try done. f_equal. ring. Qed.

Lemma num_add_assoc x y z : num_add x (num_add y z) = num_add (num_add x y) z.
Proof. destruct x, y, z; simpl; try done. f_equal. ring. Qed.

Lemma num_add_0_l x : num_add (Fin 0) x = x.
Proof. destruct x; simpl; try done. f_equal. ring. Qed.

Lemma num_add_0_r x : num_add x (Fin 0) = x.
Proof. by rewrite num_add_comm, num_add_0_l. Qed.

Lemma num_sum_cons x l : num_sum (x :: l) = num_add x (num_sum l).
Proof. done. Qed.

Lemma num_sum_app l1 l2 : num_sum (l1 ++ l2) = num_add (num_sum l1) (num_sum l2).
Proof.
  induction l1 as [|x l1 IH]; [by rewrite num_add_0_l|].
  cbn [app]. by rewrite !num_sum_cons, IH, num_add_assoc.
Qed.

Lemma num_sum_Permutation l1 l2 : l1 ≡ₚ l2 -> num_sum l1 = num_sum l2.
Proof.
  induction 1 as [|x l1 l2 _ IH|x y l|l1 l2 l3 _ IH1 _ IH2].
  - done.
  - by rewrite !num_sum_cons, IH.
  - rewrite !num_sum_cons, !num_add_assoc. by rewrite (num_add_comm x y).
  - by rewrite IH1.
Qed.

Lemma fold_left_num_add {A} (f : A -> number) l x :
  fold_left (fun c a => num_add c (f a)) l x = num_add x (num_sum (map f l)).
Proof.
  revert x. induction l as [|a l IH]; intros x; [by rewrite num_add_0_r|].
  cbn [fold_left map]. by rewrite IH, num_sum_cons, num_add_assoc.
Qed.

(** ** [sum] *)

Lemma sum_app l1 l2 : sum (l1 ++ l2) = num_add (sum l1) (sum l2).
Proof.
  rewrite !sum_closed, fmap_app, Qc_sum_app. done.
Qed.

Lemma sum_filter_finite l : sum (List.filter Number_isFinite l) = sum l.
Proof.
  rewrite !sum_closed. f_equal.
  induction l as [|x l IH]; [done|].
  cbn [List.filter]. destruct x; cbn [Number_isFinite];
    rewrite ?fmap_cons, ?Qc_sum_cons, IH; cbn [fin_or_zero]; ring.
Qed.

Lemma sum_all_finite l :
  Forall (fun x => Number_isFinite x = true) l -> sum l = num_sum l.
Proof.
  rewrite sum_closed. induction 1 as [|x l Hx _ IH]; [done|].
  rewrite fmap_cons, Qc_sum_cons, num_sum_cons, <- IH. by destruct x.
Qed.

(** ** [toBase] *)

Lemma USD_KRW_with_base c s : USD_KRW (with_base c s) = USD_KRW s.
Proof. done. Qed.

Lemma toBase_USD_KRW s x :
  baseCurrency s = KRW -> toBase s x USD = num_mul x (USD_KRW s).
Proof.
  intros Hb. unfold toBase. rewrite Hb.
  rewrite decide_False by done. by rewrite decide_True.
Qed.

Lemma toBase_KRW_USD s x :
  baseCurrency s = USD -> toBase s x KRW = num_div x (USD_KRW s).
Proof.
  intros Hb. unfold toBase. rewrite Hb.
  rewrite decide_False by done. rewrite decide_False by (by intros [? ?]).
  by rewrite decide_True.
Qed.

Lemma toBase_same s x c : baseCurrency s = c -> toBase s x c = x.
Proof. intros Hb. unfold toBase. by rewrite decide_True. Qed.

(** ** Adding and removing a transaction *)

Lemma balance_of_valQ flows a :
  all_fin flows -> balance_of flows a = Fin (valQ flows (a_id a)).
Proof.
  intros Hfin. unfold balance_of, flows_val, valQ.
  destruct (flows !! a_id a) as [v|] eqn:E; [|done].
  apply Hfin in E. by destruct v.
Qed.

Lemma cashFlows_snoc accs txs t :
  cashFlows accs (txs ++ [t]) = cashFlows_step (cashFlows accs txs) t.
Proof. unfold cashFlows. by rewrite fold_left_app. Qed.

Lemma tx_amt_with_t_id id t : tx_amt (with_t_id id t) = tx_amt t.
Proof. done. Qed.

Lemma List_filter_app {A} (f : A -> bool) l1 l2 :
  List.filter f (l1 ++ l2) = List.filter f l1 ++ List.filter f l2.
Proof. apply List.filter_app. Qed.

Lemma List_filter_all {A} (f : A -> bool) l :
  (forall x, x ∈ l -> f x = true) -> List.filter f l = l.
Proof.
  induction l as [|x l IH]; intros H; [done|]. simpl.
  rewrite (H x) by apply list_elem_of_here. f_equal.
  apply IH. intros y Hy. apply H. by apply list_elem_of_further.
Qed.

Lemma List_filter_fresh {A} (key : A -> string) (id : string) l x :
  id ∉ key <$> l -> key x = id ->
  List.filter (fun y => bool_decide (key y ≠ id)) (l ++ [x]) = l.
Proof.
  intros Hfresh Hx. rewrite List_filter_app. simpl.
  rewrite bool_decide_eq_false_2 by (intros H; by apply H).
  rewrite app_nil_r. apply List_filter_all.
  intros y Hy. apply bool_decide_eq_true. intros E.
  apply Hfresh. apply list_elem_of_fmap. eauto.
Qed.

(** X4: Removing a record by the id it was just added under restores the
    state, provided the id was not in use: for transactions, positions
    and goals. *)
Theorem add_then_remove uid s :
  (forall payload, uid ∉ t_id <$> transactions s ->
     removeTransaction uid (addTransaction uid payload s) = s) /\
  (forall payload, uid ∉ p_id <$> positions s ->
     removePosition uid (addPosition uid payload s) = s) /\
  (forall payload, uid ∉ g_id <$> goals s ->
     removeGoal uid (addGoal uid payload s) = s).
Proof.
  destruct s as [se ac tr po go ta]. split_and!; intros payload Hfresh.
  - unfold removeTransaction, addTransaction, set_transactions. simpl. f_equal.
    by apply (List_filter_fresh t_id).
  - unfold removePosition, addPosition, set_positions. simpl. f_equal.
    by apply (List_filter_fresh p_id).
  - unfold removeGoal, addGoal, set_goals. simpl. f_equal.
    by apply (List_filter_fresh g_id).
Qed.

(** ** More on removing an account *)

Lemma valQ_cashFlows accs txs k :
  valQ (cashFlows accs txs) k = valQ (cashFlows_init accs) k + net k txs.
Proof.
  unfold valQ at 1. unfold cashFlows.
  rewrite fold_cashFlows_step_lookup by apply cashFlows_init_fin.
  case_decide as Hk; [done|].
  rewrite (net_not_elem_of _ _ Hk). unfold valQ.
  destruct (cashFlows_init accs !! k) as [[]|]; ring.
Qed.

Lemma fold_opening_agree accs m1 m2 k :
  m1 !! k = m2 !! k ->
  fold_left opening_insert accs m1 !! k = fold_left opening_insert accs m2 !! k.
Proof.
  revert m1 m2. induction accs as [|a accs IH]; intros m1 m2 H; [done|].
  cbn [fold_left]. apply IH. unfold opening_insert.
  rewrite !lookup_insert. by case_decide.
Qed.

Lemma cashFlows_init_filter accs id k :
  k ≠ id ->
  cashFlows_init (List.filter (fun a => bool_decide (a_id a ≠ id)) accs) !! k =
  cashFlows_init accs !! k.
Proof.
  intros Hk. rewrite !cashFlows_init_eq. generalize (∅ : gmap string number).
  induction accs as [|a accs IH]; intros m; [done|].
  cbn [List.filter fold_left]. case_bool_decide as Ha.
  - cbn [fold_left]. apply IH.
  - rewrite IH. apply fold_opening_agree.
    unfold opening_insert. rewrite lookup_insert_ne; [done|].
    intros E. apply Hk. by rewrite <- E.
Qed.

Lemma net_filter txs id k :
  k ≠ id ->
  net k (List.filter (fun t => bool_decide (t_accountId t ≠ id)) txs) = net k txs.
Proof.
  intros Hk. induction txs as [|t txs IH]; [done|].
  cbn [List.filter]. case_bool_decide as Ht.
  - rewrite !net_cons, IH. done.
  - rewrite net_cons, IH, decide_False; [done|].
    intros E. apply Hk. by rewrite <- E.
Qed.

Lemma removeAccount_balance id s a :
  a_id a ≠ id -> state_balance (removeAccount id s) a = state_balance s a.
Proof.
  intros Ha. unfold state_balance. cbn [removeAccount accounts transactions].
  rewrite !balance_of_valQ by apply cashFlows_fin.
  rewrite !valQ_cashFlows, net_filter by done.
  unfold valQ. by rewrite cashFlows_init_filter.
Qed.

Lemma map_filter_by_id (F1 F2 : Account -> AccountBalance) id l :
  (forall a, a_id a ≠ id -> F1 a = F2 a) ->
  (forall a, ab_account (F2 a) = a) ->
  map F1 (List.filter (fun a => bool_decide (a_id a ≠ id)) l) =
  List.filter (fun ab => bool_decide (a_id (ab_account ab) ≠ id)) (map F2 l).
Proof.
  intros HF Hacc. induction l as [|a l IH]; [done|].
  cbn [List.filter map]. rewrite Hacc.
  case_bool_decide as Ha; cbn [map]; [|done].
  by rewrite IH, HF.
Qed.

Lemma balances_shown_cfg cfg cfg' flows id accs :
  map (fun ab => (ab_account ab, balance ab))
      (List.filter (fun ab => bool_decide (a_id (ab_account ab) ≠ id))
         (map (fun a => {| ab_account := a; balance := balance_of flows a;
                           balanceBase := toBase cfg (balance_of flows a) (a_currency a) |})
              accs)) =
  map (fun ab => (ab_account ab, balance ab))
      (List.filter (fun ab => bool_decide (a_id (ab_account ab) ≠ id))
         (map (fun a => {| ab_account := a; balance := balance_of flows a;
                           balanceBase := toBase cfg' (balance_of flows a) (a_currency a) |})
              accs)).
Proof.
  induction accs as [|a accs IH]; [done|].
  cbn [map List.filter ab_account]. case_bool_decide; cbn [map]; by rewrite IH.
Qed.

Lemma removeAccount_balances_fresh id s :
  accountBalances (removeAccount id s) =
    List.filter (fun ab => bool_decide (a_id (ab_account ab) ≠ id)) (accountBalances s).
Proof.
  unfold accountBalances.
  change (accounts (removeAccount id s))
    with (List.filter (fun a => bool_decide (a_id a ≠ id)) (accounts s)).
  apply map_filter_by_id; [|done].
  intros a Ha. pose proof (removeAccount_balance id s a Ha) as Hb.
  unfold state_balance in Hb.
  change (accounts (removeAccount id s))
    with (List.filter (fun a => bool_decide (a_id a ≠ id)) (accounts s)) in Hb.
  change (settings (removeAccount id s)) with (settings s).
  by rewrite Hb.
Qed.

(** X5: Removing an account changes the balance of no other account.
    The removal makes the list of balances be computed again, with the
    settings of the state; whatever settings [cfg] the list shown before
    was computed with, the new list holds the accounts and balances of
    the former one without those of the removed id, in the same order.
    The base-currency balances are the former ones as well when the
    former list was computed with the settings of the state. *)
Theorem removeAccount_keeps_balances id s cfg :
  (forall a, a_id a ≠ id -> state_balance (removeAccount id s) a = state_balance s a) /\
  map (fun ab => (ab_account ab, balance ab)) (accountBalances (removeAccount id s)) =
    map (fun ab => (ab_account ab, balance ab))
        (List.filter (fun ab => bool_decide (a_id (ab_account ab) ≠ id))
                     (accountBalances_memo cfg s)) /\
  (cfg = settings s ->
   accountBalances (removeAccount id s) =
     List.filter (fun ab => bool_decide (a_id (ab_account ab) ≠ id))
                 (accountBalances_memo cfg s)).
Proof.
  split; [intros a; apply removeAccount_balance|].
  rewrite removeAccount_balances_fresh. split.
  - unfold accountBalances, accountBalances_memo. apply balances_shown_cfg.
  - by intros ->.
Qed.

(** After the base currency of the seed data is set to USD the balances
    shown are still in won; removing the exchange account then shows the
    balance of the checking account in dollars. *)
Example stale_balances :
  balanceBase <$> head (accountBalances_memo (settings seed) seed_in_usd)
    = Some (Fin (Qc_of_Z 3000000)) /\
  balanceBase <$> head (accountBalances (removeAccount "acc4" seed_in_usd))
    = Some (Fin (Qc_of_Z 3000000 / Qc_of_Z 1350)).
Proof.
  assert (H : forall a b : Qc, this a = this b -> Some (Fin a) = Some (Fin b)).
  { intros a b Hab. by rewrite (Fin_eq_this a b Hab). }
  split; by apply H.
Qed.

(** X6: After the removal nothing refers to the removed id, and if every
    transaction and position referred to an existing account before, the
    same holds after. *)
Theorem removeAccount_referential_integrity id s :
  (id ∉ a_id <$> accounts (removeAccount id s)) /\
  (id ∉ t_accountId <$> transactions (removeAccount id s)) /\
  (id ∉ p_accountId <$> positions (removeAccount id s)) /\
  (refs_ok s -> refs_ok (removeAccount id s)).
Proof.
  cbn [removeAccount accounts transactions positions]. split_and!.
  - intros (a & -> & [_ Ha%bool_decide_eq_true]%elem_of_List_filter)%list_elem_of_fmap.
    by apply Ha.
  - intros (t & -> & [_ Ht%bool_decide_eq_true]%elem_of_List_filter)%list_elem_of_fmap.
    by apply Ht.
  - intros (p & -> & [_ Hp%bool_decide_eq_true]%elem_of_List_filter)%list_elem_of_fmap.
    by apply Hp.
  - intros [Ht Hp]. split; cbn [removeAccount accounts transactions positions].
    + intros t [Hin Hne%bool_decide_eq_true]%elem_of_List_filter.
      apply Ht in Hin as (a & Ha & Hina)%list_elem_of_fmap.
      apply list_elem_of_fmap. exists a. split; [done|].
      apply elem_of_List_filter. split; [done|].
      apply bool_decide_eq_true. by rewrite <- Ha.
    + intros p [Hin Hne%bool_decide_eq_true]%elem_of_List_filter.
      apply Hp in Hin as (a & Ha & Hina)%list_elem_of_fmap.
      apply list_elem_of_fmap. exists a. split; [done|].
      apply elem_of_List_filter. split; [done|].
      apply bool_decide_eq_true. by rewrite <- Ha.
Qed.

Lemma List_filter_comm {A} (f g : A -> bool) l :
  List.filter f (List.filter g l) = List.filter g (List.filter f l).
Proof.
  induction l as [|x l IH]; [done|]. simpl.
  destruct (f x) eqn:Ef, (g x) eqn:Eg; simpl; rewrite ?Ef, ?Eg, IH; done.
Qed.

Lemma List_filter_idemp {A} (f : A -> bool) l :
  List.filter f (List.filter f l) = List.filter f l.
Proof.
  apply List_filter_all. by intros x [_ ?]%elem_of_List_filter.
Qed.

(** X7: Removing the same account twice is the same as removing it once, and
    two removals can be done in either order. *)
Theorem removeAccount_idempotent_commutes id1 id2 s :
  removeAccount id1 (removeAccount id1 s) = removeAccount id1 s /\
  removeAccount id1 (removeAccount id2 s) = removeAccount id2 (removeAccount id1 s).
Proof.
  unfold removeAccount. simpl. split; f_equal;
    apply List_filter_idemp || apply List_filter_comm.
Qed.

(** ** [accountsById] *)




Lemma last_filter_snoc {A} (f : A -> bool) l x :
  last (List.filter f (l ++ [x])) = if f x then Some x else last (List.filter f l).
Proof.
  rewrite List.filter_app. cbn [List.filter]. destruct (f x).
  - apply last_snoc.
  - by rewrite app_nil_r.
Qed.


(** ** [updatePosition] *)

(** X9: Setting the last price of position [id] keeps the positions and their
    order, revalues exactly those with that id at quantity x new price,
    and leaves the account balances as they were. *)
Theorem updatePosition_price id v s :
  length (positionsMV (updatePosition id (price_patch v) s)) = length (positionsMV s) /\
  (forall i p, positions s !! i = Some p ->
     exists p',
       positionsMV (updatePosition id (price_patch v) s) !! i = Some p' /\
       p_id (pv_position p') = p_id p /\
       p_qty (pv_position p') = p_qty p /\
       p_avgPrice (pv_position p') = p_avgPrice p /\
       if decide (p_id p = id)
       then marketValue p' = num_mul (ensureNumber (p_qty p)) (ensureNumber v)
       else p' = valuation (settings s) p) /\
  accountBalances (updatePosition id (price_patch v) s) = accountBalances s.
Proof.
  split_and!.
  - unfold positionsMV, updatePosition. cbn [positions set_positions].
    by rewrite !length_map.
  - intros i p Hp. unfold positionsMV, updatePosition. cbn [positions set_positions settings].
    rewrite !list_lookup_fmap, Hp. cbn [fmap option_fmap option_map].
    eexists. split; [reflexivity|].
    case_decide; by cbn.
  - done.
Qed.

(** ** The pie chart of the dashboard *)

Lemma Math_max_zero v :
  num_gt (Math_max (Fin 0) v) (Fin 0) = num_gt v (Fin 0) /\
  (num_gt v (Fin 0) = true -> Math_max (Fin 0) v = v).
Proof.
  destruct v as [q| | |]; try done. cbn [Math_max num_gt].
  destruct (decide (q < 0)) as [Hq|Hq].
  - rewrite (bool_decide_eq_true_2 _ Hq). cbn [num_gt].
    assert (H1 : ~ 0 < q) by (by apply Qcle_not_lt, Qclt_le_weak).
    assert (H2 : ~ (0:Qc) < 0) by (by apply Qcle_not_lt, Qcle_refl).
    rewrite (bool_decide_eq_false_2 _ H1), (bool_decide_eq_false_2 _ H2). done.
  - by rewrite (bool_decide_eq_false_2 _ Hq).
Qed.

Lemma StronglySorted_List_filter {A} (R : A -> A -> Prop) (f : A -> bool) l :
  StronglySorted R l -> StronglySorted R (List.filter f l).
Proof.
  induction 1 as [|x l Hs IH Hall]; [constructor|]. simpl.
  destruct (f x); [|done]. constructor; [done|].
  rewrite Forall_forall in Hall. apply Forall_forall.
  intros y [Hy _]%elem_of_List_filter. by apply Hall.
Qed.

(** X10: The pie chart shows exactly the asset types whose total is positive,
    each once, in the order of [ASSET_TYPES], with that total as value:
    totals that are zero, negative or NaN are left out. *)
Theorem allocationData_positive_totals st :
  (forall d, d ∈ allocationData st <->
     num_gt (default (Fin 0) (totalsByType st !! slice_name d)) (Fin 0) = true /\
     slice_value d = default (Fin 0) (totalsByType st !! slice_name d)) /\
  StronglySorted slice_before (allocationData st).
Proof.
  unfold allocationData. split.
  - intros [t v]. rewrite elem_of_List_filter, list_elem_of_fmap. cbn [slice_name slice_value].
    destruct (Math_max_zero (default (Fin 0) (totalsByType st !! t))) as [Hgt Hmax]. split.
    + intros [(t' & E & _) Hpos].
      pose proof (f_equal slice_name E) as Et. pose proof (f_equal slice_value E) as Ev.
      cbn [slice_name slice_value] in Et, Ev. subst t'. rewrite Ev in Hpos |- *.
      rewrite Hgt in Hpos. split; [done | by apply Hmax].
    + intros [Hpos ->]. split.
      * exists t. split; [by rewrite Hmax | destruct t; set_solver].
      * done.
  - apply StronglySorted_List_filter. unfold ASSET_TYPES, slice_before. simpl.
    repeat (constructor; [|repeat constructor; simpl; lia]). constructor.
Qed.

(** ** Progress of a goal *)

Lemma List_filter_none {A} (f : A -> bool) l :
  (forall x, x ∈ l -> f x = false) -> List.filter f l = [].
Proof.
  induction l as [|x l IH]; intros H; [done|]. simpl.
  rewrite (H x) by apply list_elem_of_here.
  apply IH. intros y Hy. apply H. by apply list_elem_of_further.
Qed.

Lemma progress_pct_cases v target :
  (if num_gt target (Fin 0) then num_mul (num_div (Fin v) target) hundred else Fin 0)
  = match target with
    | Fin tg => if decide (0 < tg) then Fin (v / tg * Qc_of_Z 100) else Fin 0
    | PInf => Fin (0 * Qc_of_Z 100)
    | _ => Fin 0
    end.
Proof.
  destruct target as [tg| | |]; try done. cbn [num_gt].
  destruct (decide (0 < tg)) as [H|H].
  - rewrite (bool_decide_eq_true_2 _ H), num_div_Fin by by apply Qc_pos_nonzero. done.
  - by rewrite (bool_decide_eq_false_2 _ H).
Qed.

Lemma progressFor_finite st g :
  exists v p, val (progressFor st g) = Fin v /\ pct (progressFor st g) = Fin p.
Proof.
  unfold progressFor. cbn [val pct]. rewrite sum_closed, progress_pct_cases.
  destruct (g_target g) as [tg| | |]; [case_decide|..];
    eexists _, _; split; reflexivity.
Qed.

(** X11: A goal with no linked account has the value 0 and is at 0
    percent, like a goal whose target is not positive; and only the set
    of linked ids counts: repeating an id or reordering the ids changes
    nothing. *)
Theorem progressFor_linked_accounts st g :
  (g_accountIds g = [] ->
   val (progressFor st g) = Fin 0 /\ pct (progressFor st g) = Fin 0) /\
  (num_gt (g_target g) (Fin 0) = false -> pct (progressFor st g) = Fin 0) /\
  (forall ids, (forall x, x ∈ ids <-> x ∈ g_accountIds g) ->
               progressFor st (with_accountIds ids g) = progressFor st g).
Proof.
  split_and!.
  - intros Hids. unfold progressFor. cbn [val pct]. rewrite Hids.
    rewrite List_filter_none by (intros x _; apply bool_decide_eq_false_2, not_elem_of_nil).
    cbn [map]. change (sum []) with (Fin 0). split; [done|].
    rewrite progress_pct_cases.
    destruct (g_target g) as [tg| | |]; try done.
    case_decide as Htg; [|done]. f_equal; try field; try by apply Qc_pos_nonzero.
  - intros H. unfold progressFor. cbn [pct]. by rewrite H.
  - intros ids Hids. unfold progressFor. cbn [with_accountIds g_accountIds g_target].
    replace (List.filter (fun a => bool_decide (a_id (ab_account a) ∈ ids)) (accountBalances st))
      with (List.filter (fun a => bool_decide (a_id (ab_account a) ∈ g_accountIds g))
                        (accountBalances st)); [done|].
    apply filter_ext. intros ab. apply bool_decide_ext. symmetry. apply Hids.
Qed.

(** ** The card of a goal *)

Lemma Qc_div_le_self l x : 0 <= l -> 1 <= x -> 0 <= l / x /\ l / x <= l.
Proof.
  intros Hl Hx.
  assert (Hx0 : 0 < x) by (eapply Qclt_le_trans; [|exact Hx]; done).
  assert (Hne : x ≠ 0) by by apply Qc_pos_nonzero.
  assert (Hmul : l / x * x = l) by (field; done).
  split.
  - apply (Qcmult_lt_0_le_reg_r _ _ x Hx0). rewrite Hmul, Qcmult_0_l. done.
  - apply (Qcmult_lt_0_le_reg_r _ _ x Hx0). rewrite Hmul.
    rewrite <- (Qcmult_1_r l) at 1. rewrite !(Qcmult_comm l).
    by apply Qcmult_le_compat_r.
Qed.

Lemma Math_max_Fin a b :
  Math_max (Fin a) (Fin b) = Fin (if bool_decide (b < a) then a else b).
Proof. cbn [Math_max num_gt]. by case_bool_decide. Qed.

Lemma Math_min_Fin a b :
  Math_min (Fin a) (Fin b) = Fin (if bool_decide (b < a) then b else a).
Proof. cbn [Math_min num_gt]. by case_bool_decide. Qed.

Lemma Math_max_one days :
  days ≠ NaN ->
  Math_max (Fin 1) days = PInf \/ exists x, Math_max (Fin 1) days = Fin x /\ 1 <= x.
Proof.
  destruct days as [y| | |]; intros H; try done.
  - right. cbn [Math_max num_gt]. case_bool_decide as Hy.
    + exists 1. split; [done | apply Qcle_refl].
    + exists y. split; [done | by apply Qcnot_lt_le].
  - by left.
  - right. exists 1. split; [done | apply Qcle_refl].
Qed.

(** The values of a card over the exact numbers. *)
Lemma goalCard_values st g days tg :
  g_target g = Fin tg ->
  exists v l w,
    gc_val (goalCard st g days) = Fin v /\
    gc_left (goalCard st g days) = Fin l /\
    0 <= l /\ (tg <= v -> l = 0) /\ (v <= tg -> l = tg - v) /\
    gc_width (goalCard st g days) = Fin w /\ w <= Qc_of_Z 100 /\
    (days ≠ NaN ->
     exists d, gc_daily (goalCard st g days) = Fin d /\ 0 <= d /\ d <= l).
Proof.
  intros Htg.
  destruct (progressFor_finite st g) as (v & p & Hv & Hp).
  unfold goalCard. cbn [gc_val gc_left gc_width gc_daily]. rewrite Hv, Hp, Htg.
  unfold hundred. cbn [num_sub num_neg num_add]. rewrite Math_max_Fin, Math_min_Fin.
  set (l := if bool_decide (tg + - v < 0) then 0 else tg + - v).
  assert (Hl0 : 0 <= l).
  { unfold l. case_bool_decide as H; [apply Qcle_refl | by apply Qcnot_lt_le]. }
  exists v, l, (if bool_decide (p < Qc_of_Z 100) then p else Qc_of_Z 100).
  split_and!; try done.
  - intros Hle. unfold l. case_bool_decide as H; [done|].
    apply Qcle_antisym; [|by apply Qcnot_lt_le].
    apply Qcle_minus_iff in Hle. apply Qcopp_le_compat in Hle.
    replace (- (v + - tg)) with (tg + - v) in Hle by ring. exact Hle.
  - intros Hle. unfold l. case_bool_decide as H; [|done].
    apply Qcle_minus_iff in Hle. by apply Qcle_not_lt in Hle.
  - case_bool_decide as H; [by apply Qclt_le_weak | apply Qcle_refl].
  - intros Hdays. destruct (Math_max_one days Hdays) as [->|(x & -> & Hx)].
    + exists 0. cbn [num_div]. split_and!; [done | apply Qcle_refl | done].
    + assert (Hx0 : x ≠ 0).
      { apply Qc_pos_nonzero. eapply Qclt_le_trans; [|exact Hx]. done. }
      rewrite num_div_Fin by done. exists (l / x).
      destruct (Qc_div_le_self l x Hl0 Hx). done.
Qed.

(** X12: On the card of a goal with a finite target and a number of days
    that is finite, the missing amount is never negative: it is target -
    value when the value is at most the target and 0 when the value is at
    least the target; the bar is never wider than 100; and the saving
    needed per day lies between 0 and the missing amount, the number of
    days being counted as 1 at least. *)
Theorem goalCard_bounds st g days tg :
  g_target g = Fin tg ->
  Number_isFinite days = true ->
  num_le (Fin 0) (gc_left (goalCard st g days)) /\
  (num_le (g_target g) (gc_val (goalCard st g days)) ->
   gc_left (goalCard st g days) = Fin 0) /\
  (num_le (gc_val (goalCard st g days)) (g_target g) ->
   gc_left (goalCard st g days) = num_sub (g_target g) (gc_val (goalCard st g days))) /\
  num_le (gc_width (goalCard st g days)) hundred /\
  num_le (Fin 0) (gc_daily (goalCard st g days)) /\
  num_le (gc_daily (goalCard st g days)) (gc_left (goalCard st g days)).
Proof.
  intros Htg Hdays.
  assert (Hnan : days ≠ NaN) by (by destruct days).
  destruct (goalCard_values st g days tg Htg)
    as (v & l & w & Hv & Hl & Hl0 & Hge & Hle & Hw & Hw100 & Hd).
  destruct (Hd Hnan) as (d & Hdaily & Hd0 & Hdl).
  rewrite Hv, Hl, Hw, Hdaily, Htg. unfold hundred. cbn [num_le num_sub num_neg num_add].
  split_and!; try done.
  - intros H. f_equal. by apply Hge.
  - intros H. f_equal. rewrite (Hle H). ring.
Qed.

Lemma goalCard_bounds_witness :
  g_target goal_linked = Fin (Qc_of_Z 3000000) /\
  Number_isFinite (Fin (Qc_of_Z 30)) = true /\
  num_le (Fin 0) (gc_left (goalCard seed goal_linked (Fin (Qc_of_Z 30)))) /\
  num_le (gc_daily (goalCard seed goal_linked (Fin (Qc_of_Z 30))))
         (gc_left (goalCard seed goal_linked (Fin (Qc_of_Z 30)))).
Proof.
  split; [reflexivity|]. split; [reflexivity|].
  destruct (goalCard_bounds seed goal_linked (Fin (Qc_of_Z 30)) (Qc_of_Z 3000000)
              eq_refl eq_refl) as (H0 & _ & _ & _ & _ & Hd).
  by split.
Defined.

(** ** Saving the settings *)

Lemma saveAll_off_iff f :
  num_gt (Math_abs (num_sub (sum (Object_values (f_alloc f))) hundred))
         (Fin (Q2Qc (1 # 100))) = true
  <-> Q2Qc (1 # 100) < Qc_abs (targets_total (f_alloc f) - Qc_of_Z 100).
Proof.
  rewrite sum_Object_values. fold (targets_total (f_alloc f)).
  unfold hundred. cbn [num_sub num_neg num_add Math_abs num_gt].
  by rewrite bool_decide_eq_true.
Qed.

(** X13: [saveAll] leaves the state as it is and shows no notice exactly
    when it asked for confirmation and the user declined.  Otherwise the
    accounts, transactions, positions and goals are kept, the targets and
    the base currency are those of the form, the stored threshold is a
    finite number (5 when the field holds none), and the stored rate is
    the number the rate field holds or 0 when it holds no finite number:
    the fallback 1350 of the engine does not apply after a save. *)
Theorem saveAll_outcomes confirm f s :
  (saved (saveAll confirm f s) = false <->
   asked (saveAll confirm f s) = true /\ confirm = false) /\
  (saved (saveAll confirm f s) = false -> after (saveAll confirm f s) = s) /\
  (saved (saveAll confirm f s) = true ->
   accounts (after (saveAll confirm f s)) = accounts s /\
   transactions (after (saveAll confirm f s)) = transactions s /\
   positions (after (saveAll confirm f s)) = positions s /\
   goals (after (saveAll confirm f s)) = goals s /\
   allocation (targets (after (saveAll confirm f s))) = f_alloc f /\
   baseCurrency (settings (after (saveAll confirm f s))) = f_baseCurrency f /\
   threshold_of (after (saveAll confirm f s)) =
     ensureNumber_or (f_driftTh f) (Fin (Qc_of_Z 5)) /\
   (exists q, threshold_of (after (saveAll confirm f s)) = Fin q) /\
   USD_KRW (settings (after (saveAll confirm f s))) = ensureNumber (f_usdKrw f) /\
   (Number_isFinite (Number (f_usdKrw f)) = false ->
    USD_KRW (settings (after (saveAll confirm f s))) = Fin 0)).
Proof.
  unfold saveAll.
  destruct (num_gt (Math_abs (num_sub (sum (Object_values (f_alloc f))) hundred))
                   (Fin (Q2Qc (1 # 100)))) eqn:E;
    destruct confirm; cbn [andb negb asked saved after].
  all: split; [split; [done | by intros [? ?]]|].
  all: split; [done|].
  all: try done.
  all: intros _; cbn [accounts transactions positions goals targets settings allocation
                      baseCurrency].
  all: split_and!; try done.
  all: try (unfold threshold_of; cbn [targets driftThreshold default];
            unfold ensureNumber_or; destruct (Number_isFinite (Number (f_driftTh f))) eqn:Ef;
            [destruct (Number (f_driftTh f)); [by eexists | done..] | by eexists]).
  all: try (unfold USD_KRW; cbn [usdKrw]; by rewrite ensureNumber_Fin).
  all: intros Hnf; unfold USD_KRW; cbn [usdKrw];
       by rewrite (ensureNumber_not_finite _ Hnf).
Qed.

(** ** The drift list *)

(** X14: Whatever the targets and the actual percentages, the drift list holds
    each of the seven asset types exactly once, and the entry of a type
    carries its target (0 when none is set), its actual percentage and
    their difference. *)
Theorem computeDrift_one_entry_per_type target actual :
  d_type <$> computeDrift target actual ≡ₚ ASSET_TYPES /\
  NoDup (d_type <$> computeDrift target actual) /\
  forall d, d ∈ computeDrift target actual ->
    d_target d = default (Fin 0) (target !! d_type d) /\
    d_actual d = default (Fin 0) (actual !! d_type d) /\
    d_diff d = num_sub (d_actual d) (d_target d).
Proof.
  assert (Hp : d_type <$> computeDrift target actual ≡ₚ ASSET_TYPES).
  { unfold computeDrift. rewrite Array_sort_Permutation.
    unfold ASSET_TYPES. done. }
  split; [exact Hp|]. split.
  - rewrite Hp. by apply (bool_decide_unpack _).
  - intros d. unfold computeDrift. rewrite Array_sort_Permutation.
    by intros (t & -> & _)%list_elem_of_fmap.
Qed.

Lemma filter_sorted_prefix {A} (R : A -> A -> Prop) (f : A -> bool) l :
  StronglySorted R l ->
  (forall x y, R x y -> f y = true -> f x = true) ->
  exists n, List.filter f l = take n l.
Proof.
  intros Hs Hmono. induction Hs as [|x l Hs IH Hall]; [by exists 0%nat|].
  simpl. destruct (f x) eqn:E.
  - destruct IH as [n ->]. by exists (S n).
  - exists 0%nat. apply List_filter_none.
    intros y Hy. rewrite Forall_forall in Hall.
    destruct (f y) eqn:Ey; [|done].
    by rewrite (Hmono x y (Hall y Hy) Ey) in E.
Qed.

(** X15: When no diff is NaN the alerts are the first entries of the drift
    list: the entries past the last alert are all within the threshold. *)
Theorem rebalanceAlerts_prefix st :
  (forall t, d_diff (drift_entry (allocation (targets st)) (allocationActual st) t) ≠ NaN) ->
  exists n, rebalanceAlerts st = take n (drift st).
Proof.
  intros Hnan. unfold rebalanceAlerts.
  apply (filter_sorted_prefix drift_before).
  - by apply computeDrift_sorted.
  - intros x y [Hxy _]. unfold alerting. rewrite !num_ge_spec.
    intros Hy. eapply num_le_trans; [exact Hy | exact Hxy].
Qed.

Lemma rebalanceAlerts_prefix_witness :
  (forall t, d_diff (drift_entry (allocation (targets seed)) (allocationActual seed) t) ≠ NaN) /\
  exists n, rebalanceAlerts seed = take n (drift seed).
Proof.
  assert (H : forall t, d_diff (drift_entry (allocation (targets seed))
                                            (allocationActual seed) t) ≠ NaN).
  { intros t E. destruct t; vm_compute in E; discriminate E. }
  split; [exact H|]. exact (rebalanceAlerts_prefix seed H).
Defined.

(** ** More on the rebalancing suggestion *)

Lemma num_neg_pos x : num_lt x (Fin 0) = true -> num_gt (num_neg x) (Fin 0) = true.
Proof.
  destruct x as [q| | |]; try done. unfold num_lt. cbn [num_gt num_neg].
  rewrite !bool_decide_eq_true. intros H.
  apply Qclt_minus_iff in H. by rewrite Qcplus_0_l in H.
Qed.

(** X16: A suggestion always moves a positive percentage, from a type that is
    over its target to a type that is under its target, and the amount is
    that percentage of the total assets. *)
Theorem suggestRebalance_moves_positive dr total t from to movePct moveAmount :
  suggestRebalance dr total t = Suggestion from to movePct moveAmount ->
  num_gt movePct (Fin 0) = true /\
  moveAmount = num_mul total (num_div movePct hundred) /\
  exists over under,
    over ∈ dr /\ under ∈ dr /\ d_type over = from /\ d_type under = to /\
    is_over over = true /\ is_under under = true /\ over ≠ under.
Proof.
  unfold suggestRebalance.
  destruct (most_overweight dr) as [o|] eqn:Eo; [|done].
  destruct (most_underweight dr) as [u|] eqn:Eu; [|done].
  intros [= <- <- <- <-].
  apply most_overweight_Some in Eo as (Ho & Hopos & _).
  apply most_underweight_Some in Eu as (Hu & Huneg & _).
  split_and!; [|done|].
  - destruct (Math_min_spec (d_diff o) (num_neg (d_diff u))) as [[-> _]|[-> _]];
      [by apply is_over_not_NaN | by apply num_neg_not_NaN, is_under_not_NaN
      | done | by apply num_neg_pos].
  - exists o, u. split_and!; try done. intros ->.
    unfold is_over, is_under, num_lt in *.
    apply num_gt_spec in Hopos as [_ H1]. apply num_gt_spec in Huneg as [H2 _]. done.
Qed.

Lemma suggestRebalance_moves_positive_witness :
  suggestRebalance sample_drift (Fin (Qc_of_Z 2000000)) Other =
    Suggestion Stock Cash (Fin (Qc_of_Z 7)) (Fin (Qc_of_Z 140000)) /\
  num_gt (Fin (Qc_of_Z 7)) (Fin 0) = true.
Proof.
  split; [exact suggestRebalance_sample|].
  exact (proj1 (suggestRebalance_moves_positive _ _ _ _ _ _ _ suggestRebalance_sample)).
Defined.

(** ** Targets that sum to 100 *)

Lemma Qc_sum_neg_elem l : Qc_sum l < 0 -> exists y, y ∈ l /\ y < 0.
Proof.
  induction l as [|x l IH]; intros Hsum; [by apply Qclt_not_eq in Hsum|].
  rewrite Qc_sum_cons in Hsum.
  destruct (Qclt_le_dec x 0) as [Hx|Hx]; [exists x; split; [apply list_elem_of_here | done]|].
  destruct (Qclt_le_dec (Qc_sum l) 0) as [Hl|Hl].
  - destruct (IH Hl) as (y & Hy & Hneg).
    exists y. split; [by apply list_elem_of_further | done].
  - exfalso. apply (Qclt_not_le _ _ Hsum).
    replace 0 with (0 + 0) by ring. by apply Qcplus_le_compat.
Qed.

Lemma Qc_sum_zero_pos_neg l :
  Qc_sum l = 0 -> (exists x, x ∈ l /\ 0 < x) -> exists y, y ∈ l /\ y < 0.
Proof.
  intros Hsum (z & Hz & Hpos).
  apply elem_of_Permutation in Hz as [k Hk].
  rewrite (Qc_sum_Permutation _ _ Hk), Qc_sum_cons in Hsum.
  destruct (Qc_sum_neg_elem k) as (y & Hy & Hneg).
  - replace (Qc_sum k) with (- z) by (rewrite <- (Qcplus_0_l (- z)), <- Hsum; ring).
    replace 0 with (- 0) by ring. apply Qclt_minus_iff.
    replace (- 0 + - - z) with z by ring. done.
  - exists y. split; [|done]. rewrite Hk. by apply list_elem_of_further.
Qed.

Lemma Qc_sum_opp l : Qc_sum (Qcopp <$> l) = - Qc_sum l.
Proof.
  induction l as [|x l IH]; [cbn; ring|].
  rewrite fmap_cons, !Qc_sum_cons, IH. ring.
Qed.

Lemma Qc_sum_zero_neg_pos l :
  Qc_sum l = 0 -> (exists x, x ∈ l /\ x < 0) -> exists y, y ∈ l /\ 0 < y.
Proof.
  intros Hsum (z & Hz & Hneg).
  destruct (Qc_sum_zero_pos_neg (Qcopp <$> l)) as (y & Hy & Hy0).
  - rewrite Qc_sum_opp, Hsum. ring.
  - exists (- z). split; [by apply list_elem_of_fmap_2|].
    apply Qclt_minus_iff in Hneg. by rewrite Qcplus_0_l in Hneg.
  - apply list_elem_of_fmap in Hy as (x & -> & Hx). exists x. split; [done|].
    apply Qclt_minus_iff in Hy0. rewrite Qcopp_involutive, Qcplus_0_l in Hy0. done.
Qed.

Lemma elem_of_ASSET_TYPES t : t ∈ ASSET_TYPES.
Proof. destruct t; set_solver. Qed.

Lemma drift_elem_iff st d :
  d ∈ drift st <->
  exists t, d = drift_entry (allocation (targets st)) (allocationActual st) t.
Proof.
  split; [apply drift_elem|]. intros [t ->].
  unfold drift, computeDrift. rewrite Array_sort_Permutation.
  apply list_elem_of_fmap_2, elem_of_ASSET_TYPES.
Qed.

Lemma drift_diff_Qc st t :
  totals_fin (totalsByType st) -> 0 < grandQ st -> targets_fin (targets st) ->
  d_diff (drift_entry (allocation (targets st)) (allocationActual st) t) = Fin (diffQ st t).
Proof.
  intros Hfin HT Htg. unfold drift_entry, diffQ. cbn [d_diff].
  unfold allocationActual. rewrite computeAllocation_lookup. cbn [default from_option id].
  rewrite totalAssetsBase_closed. fold (grandQ st).
  rewrite allocation_of_fin by done.
  rewrite (totals_fin_default (allocation (targets st)) t Htg). done.
Qed.

Lemma diffQ_sum_zero st :
  grandQ st ≠ 0 -> targets_total (allocation (targets st)) = Qc_of_Z 100 ->
  Qc_sum (diffQ st <$> ASSET_TYPES) = 0.
Proof.
  unfold diffQ, targets_total. intros HT Htg.
  remember (grandQ st) as T eqn:ET. unfold grandQ in ET.
  unfold ASSET_TYPES in *. cbn [fmap list_fmap Qc_sum foldr] in *.
  rewrite <- Htg. clear Htg. revert HT. subst T.
  generalize (type_total (totalsByType st) Cash) (type_total (totalsByType st) Stock)
    (type_total (totalsByType st) ETF) (type_total (totalsByType st) Bond)
    (type_total (totalsByType st) Crypto) (type_total (totalsByType st) RealEstate)
    (type_total (totalsByType st) Other).
  generalize (type_total (allocation (targets st)) Cash)
    (type_total (allocation (targets st)) Stock)
    (type_total (allocation (targets st)) ETF) (type_total (allocation (targets st)) Bond)
    (type_total (allocation (targets st)) Crypto)
    (type_total (allocation (targets st)) RealEstate)
    (type_total (allocation (targets st)) Other).
  intros g1 g2 g3 g4 g5 g6 g7 a1 a2 a3 a4 a5 a6 a7 H0.
  rewrite Qcplus_0_r in H0. field. exact H0.
Qed.

Lemma is_over_Fin t tg ac q : is_over (mkDriftEntry t tg ac (Fin q)) = true <-> 0 < q.
Proof. unfold is_over. cbn. apply bool_decide_eq_true. Qed.

Lemma is_under_Fin t tg ac q : is_under (mkDriftEntry t tg ac (Fin q)) = true <-> q < 0.
Proof. unfold is_under, num_lt. cbn. apply bool_decide_eq_true. Qed.

Lemma drift_over_iff st :
  totals_fin (totalsByType st) -> 0 < grandQ st -> targets_fin (targets st) ->
  (exists d, d ∈ drift st /\ is_over d = true) <->
  (exists x, x ∈ diffQ st <$> ASSET_TYPES /\ 0 < x).
Proof.
  intros Hfin HT Htg. split.
  - intros (d & [t ->]%drift_elem_iff & Hover).
    exists (diffQ st t). split; [apply list_elem_of_fmap_2, elem_of_ASSET_TYPES|].
    unfold is_over in Hover. rewrite drift_diff_Qc in Hover by done.
    by apply bool_decide_eq_true in Hover.
  - intros (x & (t & -> & _)%list_elem_of_fmap & Hpos).
    exists (drift_entry (allocation (targets st)) (allocationActual st) t).
    split; [apply drift_elem_iff; by exists t|].
    unfold is_over. rewrite drift_diff_Qc by done. by apply bool_decide_eq_true.
Qed.

Lemma drift_under_iff st :
  totals_fin (totalsByType st) -> 0 < grandQ st -> targets_fin (targets st) ->
  (exists d, d ∈ drift st /\ is_under d = true) <->
  (exists x, x ∈ diffQ st <$> ASSET_TYPES /\ x < 0).
Proof.
  intros Hfin HT Htg. split.
  - intros (d & [t ->]%drift_elem_iff & Hunder).
    exists (diffQ st t). split; [apply list_elem_of_fmap_2, elem_of_ASSET_TYPES|].
    unfold is_under, num_lt in Hunder. rewrite drift_diff_Qc in Hunder by done.
    by apply bool_decide_eq_true in Hunder.
  - intros (x & (t & -> & _)%list_elem_of_fmap & Hneg).
    exists (drift_entry (allocation (targets st)) (allocationActual st) t).
    split; [apply drift_elem_iff; by exists t|].
    unfold is_under, num_lt. rewrite drift_diff_Qc by done. by apply bool_decide_eq_true.
Qed.

(** ** Valuation of a position *)

(** ** The income and expense report *)

Lemma rows_update_keys m f rows : (rows_update m f rows).*1 = rows.*1.
Proof.
  induction rows as [|[k r] rows IH]; [done|]. cbn [rows_update].
  case_decide; cbn; by rewrite ?IH.
Qed.

Lemma rows_get_update m' m f rows :
  rows_get m' (rows_update m f rows) =
    if decide (m' = m) then f <$> rows_get m rows else rows_get m' rows.
Proof.
  induction rows as [|[k r] rows IH]; [by case_decide|]. cbn [rows_update rows_get].
  destruct (decide (k = m)) as [->|Hk]; cbn [rows_get].
  - destruct (decide (m = m')) as [->|Hm].
    + by rewrite decide_True.
    + by rewrite decide_False by done.
  - destruct (decide (k = m')) as [->|Hk'].
    + by rewrite decide_False by done.
    + exact IH.
Qed.

Lemma rows_get_None m rows : rows_get m rows = None <-> m ∉ rows.*1.
Proof.
  induction rows as [|[k r] rows IH]; [split; [intros _; apply not_elem_of_nil | done]|].
  cbn [rows_get]. rewrite fmap_cons, not_elem_of_cons. cbn [fst].
  case_decide as Hk.
  - split; [done|]. by intros [? _].
  - rewrite IH. split; [by intros ? | by intros [_ ?]].
Qed.

Lemma rows_get_snoc m' rows m r :
  rows_get m' (rows ++ [(m, r)]) =
    match rows_get m' rows with
    | Some x => Some x
    | None => if decide (m' = m) then Some r else None
    end.
Proof.
  induction rows as [|[k x] rows IH].
  - cbn. destruct (decide (m = m')) as [->|H]; [by rewrite decide_True|].
    by rewrite decide_False by done.
  - cbn [app rows_get]. destruct (decide (k = m')); [done | exact IH].
Qed.

Lemma rows_get_elem m r rows :
  NoDup rows.*1 -> (m, r) ∈ rows -> rows_get m rows = Some r.
Proof.
  induction rows as [|[k x] rows IH]; intros Hnd Hin; [by apply elem_of_nil in Hin|].
  rewrite fmap_cons in Hnd. apply NoDup_cons in Hnd as [Hk Hnd]. cbn [fst] in Hk.
  cbn [rows_get]. apply elem_of_cons in Hin as [[= -> ->]|Hin].
  - by rewrite decide_True.
  - rewrite decide_False; [by apply IH|].
    intros ->. apply Hk. apply list_elem_of_fmap. by exists (m, r).
Qed.

Lemma rows_has_spec m rows : rows_has m rows = true <-> m ∈ rows.*1.
Proof. unfold rows_has. apply bool_decide_eq_true. Qed.

Lemma monthlyRows_step_keys st rows t :
  (monthlyRows_step st rows t).*1 =
    if rows_has (tx_month t) rows then rows.*1 else rows.*1 ++ [tx_month t].
Proof.
  unfold monthlyRows_step.
  destruct (is_credit (t_type t)), (is_debit (t_type t));
    rewrite ?rows_update_keys; destruct (rows_has (tx_month t) rows);
    by rewrite ?fmap_app.
Qed.

Lemma monthlyRows_step_get st rows t m' :
  rows_get m' (monthlyRows_step st rows t) =
    if decide (m' = tx_month t)
    then Some (row_after st t (default zero_row (rows_get (tx_month t) rows)))
    else rows_get m' rows.
Proof.
  unfold monthlyRows_step. fold (gross_base st t).
  set (m := tx_month t).
  set (rows1 := if rows_has m rows then rows else rows ++ [(m, zero_row)]).
  assert (H1 : rows_get m rows1 = Some (default zero_row (rows_get m rows))).
  { unfold rows1. destruct (rows_has m rows) eqn:E.
    - apply rows_has_spec in E. destruct (rows_get m rows) eqn:G; [done|].
      by apply rows_get_None in G.
    - rewrite rows_get_snoc. destruct (rows_get m rows); [done|]. by rewrite decide_True. }
  assert (H2 : m' ≠ m -> rows_get m' rows1 = rows_get m' rows).
  { intros Hne. unfold rows1. destruct (rows_has m rows); [done|].
    rewrite rows_get_snoc. destruct (rows_get m' rows); [done|].
    by rewrite decide_False. }
  change (if rows_has m rows then rows
          else rows ++ [(m, {| income := Fin 0; expense := Fin 0 |})]) with rows1.
  unfold row_after.
  destruct (decide (m' = m)) as [->|Hne].
  - destruct (t_type t); cbn [is_credit is_debit];
      rewrite ?rows_get_update, ?decide_True, ?H1 by done; done.
  - destruct (t_type t); cbn [is_credit is_debit];
      rewrite ?rows_get_update, ?decide_False by done; by apply H2.
Qed.

Lemma rows_from_snoc st txs t :
  rows_from st (txs ++ [t]) = monthlyRows_step st (rows_from st txs) t.
Proof. unfold rows_from. by rewrite fold_left_app. Qed.

Lemma month_row_snoc st m txs t :
  month_row st m (txs ++ [t]) =
    if decide (m = tx_month t) then row_after st t (month_row st m txs)
    else month_row st m txs.
Proof.
  unfold month_row, month_income, month_expense, row_after, in_month.
  rewrite !List_filter_app, !map_app, !num_sum_app. cbn [List.filter].
  destruct (decide (m = tx_month t)) as [->|Hne].
  - rewrite !bool_decide_eq_true_2 by done. cbn [andb income expense].
    destruct (is_credit (t_type t)), (is_debit (t_type t));
      cbn [map num_sum foldr]; by rewrite ?num_add_0_r.
  - rewrite !bool_decide_eq_false_2 by (intros E; by apply Hne).
    cbn [andb map num_sum foldr]. by rewrite !num_add_0_r.
Qed.

Lemma month_row_not_elem_of st m txs :
  m ∉ tx_month <$> txs -> month_row st m txs = zero_row.
Proof.
  intros Hm. unfold month_row, month_income, month_expense.
  rewrite !List_filter_none; [done|..];
    intros t Ht; unfold in_month; rewrite bool_decide_eq_false_2; [done| |done|];
    intros E; apply Hm; apply list_elem_of_fmap; eauto.
Qed.

Lemma rows_from_invariant st txs :
  NoDup (rows_from st txs).*1 /\
  (forall m, m ∈ (rows_from st txs).*1 <-> m ∈ tx_month <$> txs) /\
  (forall m, m ∈ tx_month <$> txs ->
             rows_get m (rows_from st txs) = Some (month_row st m txs)).
Proof.
  induction txs as [|t txs IH] using rev_ind.
  - split_and!; [constructor | done | by intros m Hm%elem_of_nil].
  - destruct IH as (Hnd & Hkeys & Hget).
    rewrite rows_from_snoc, monthlyRows_step_keys, fmap_app. cbn [fmap list_fmap].
    split_and!.
    + destruct (rows_has (tx_month t) (rows_from st txs)) eqn:E; [done|].
      apply NoDup_app. split_and!; [done | | apply NoDup_singleton].
      intros m Hm ->%list_elem_of_singleton.
      apply rows_has_spec in Hm. by rewrite Hm in E.
    + intros m. destruct (rows_has (tx_month t) (rows_from st txs)) eqn:E.
      * apply rows_has_spec in E. rewrite elem_of_app, list_elem_of_singleton, Hkeys.
        split; [by left|]. intros [?| ->]; [done | by apply Hkeys].
      * by rewrite !elem_of_app, !list_elem_of_singleton, Hkeys.
    + intros m Hm. rewrite monthlyRows_step_get, month_row_snoc.
      destruct (decide (m = tx_month t)) as [->|Hne].
      * f_equal. f_equal.
        destruct (decide (tx_month t ∈ tx_month <$> txs)) as [Hin|Hnin].
        -- by rewrite (Hget _ Hin).
        -- rewrite month_row_not_elem_of by done.
           destruct (rows_get (tx_month t) (rows_from st txs)) eqn:G; [|done].
           exfalso. apply Hnin, Hkeys.
           destruct (decide (tx_month t ∈ (rows_from st txs).*1)) as [?|Hno]; [done|].
           apply rows_get_None in Hno. by rewrite G in Hno.
      * apply Hget. apply elem_of_app in Hm as [?|Hm]; [done|].
        by apply list_elem_of_singleton in Hm.
Qed.

Lemma monthly_months localeCompare st :
  rr_month <$> monthly localeCompare st ≡ₚ (monthlyRows st).*1.
Proof.
  unfold monthly. rewrite <- list_fmap_compose.
  by rewrite Array_sort_Permutation.
Qed.

Lemma monthlyRows_step_costs st st' rows t t' :
  settings st' = settings st -> accounts st' = accounts st ->
  same_but_costs t t' ->
  monthlyRows_step st' rows t' = monthlyRows_step st rows t.
Proof.
  intros Hs Ha (Hd & Hacc & Hty & Ham).
  unfold monthlyRows_step, tx_month, tx_currency. by rewrite Hs, Ha, Hd, Hacc, Hty, Ham.
Qed.

(** X20: The report does not depend on fees and taxes: two states with the
    same settings and accounts whose transactions differ at most in id,
    fee, tax and note have the same rows. *)
Theorem monthlyRows_ignores_costs st st' :
  settings st' = settings st -> accounts st' = accounts st ->
  Forall2 same_but_costs (transactions st) (transactions st') ->
  monthlyRows st' = monthlyRows st.
Proof.
  intros Hs Ha Htx. unfold monthlyRows.
  generalize (@nil (string * MonthRow)).
  induction Htx as [|t t' txs txs' Ht _ IH]; intros rows; [done|].
  cbn [fold_left]. by rewrite (monthlyRows_step_costs st st' rows t t'), IH.
Qed.

Lemma monthlyRows_ignores_costs_witness :
  settings seed_with_costs = settings seed /\
  accounts seed_with_costs = accounts seed /\
  Forall2 same_but_costs (transactions seed) (transactions seed_with_costs) /\
  monthlyRows seed_with_costs = monthlyRows seed /\
  state_balance seed_with_costs acc_checking_seed ≠ state_balance seed acc_checking_seed.
Proof.
  assert (H : Forall2 same_but_costs (transactions seed) (transactions seed_with_costs)).
  { repeat constructor. }
  split_and!; [done | done | exact H | |].
  - exact (monthlyRows_ignores_costs seed seed_with_costs eq_refl eq_refl H).
  - intros E%Fin_inj_this. by vm_compute in E.
Defined.

(** ** The net-worth series *)

Lemma ensureNumber_deepClone v : ensureNumber (deepClone_val v) = ensureNumber v.
Proof. by destruct v as [[]| | |]. Qed.

Lemma tx_delta_deepClone st t : tx_delta st (deepClone_tx t) = tx_delta st t.
Proof.
  unfold tx_delta, tx_amt, tx_currency. cbn [deepClone_tx t_amount t_fee t_tax t_type t_accountId].
  by rewrite !ensureNumber_deepClone.
Qed.

Lemma List_filter_Permutation {A} (f : A -> bool) l1 l2 :
  l1 ≡ₚ l2 -> List.filter f l1 ≡ₚ List.filter f l2.
Proof.
  induction 1 as [|x l1 l2 _ IH|x y l|l1 l2 l3 _ IH1 _ IH2]; simpl.
  - done.
  - destruct (f x); by rewrite IH.
  - destruct (f x), (f y); try done. apply perm_swap.
  - by rewrite IH1.
Qed.

Lemma bucket_clones localeCompare st m :
  num_sum (map (tx_delta st)
               (List.filter (fun t => bool_decide (tx_month t = m))
                            (sorted_clones localeCompare st)))
  = bucket st m.
Proof.
  unfold sorted_clones, bucket.
  rewrite (num_sum_Permutation _ (map (tx_delta st)
             (List.filter (fun t => bool_decide (tx_month t = m))
                          (map deepClone_tx (transactions st))))).
  - f_equal. induction (transactions st) as [|t txs IH]; [done|].
    cbn [map List.filter]. change (tx_month (deepClone_tx t)) with (tx_month t).
    case_bool_decide; cbn [map]; by rewrite ?tx_delta_deepClone, IH.
  - apply Permutation_map, List_filter_Permutation, Array_sort_Permutation.
Qed.

Lemma monthly_fold_lookup st txs (mo : gmap string number) m :
  default (Fin 0)
    (fold_left (fun mo t => <[tx_month t :=
                                num_add (default (Fin 0) (mo !! tx_month t))
                                        (tx_delta st t)]> mo) txs mo !! m)
  = num_add (default (Fin 0) (mo !! m))
            (num_sum (map (tx_delta st)
                          (List.filter (fun t => bool_decide (tx_month t = m)) txs))).
Proof.
  revert mo. induction txs as [|t txs IH]; intros mo; [by rewrite num_add_0_r|].
  cbn [fold_left List.filter]. rewrite IH. rewrite lookup_insert.
  destruct (decide (tx_month t = m)) as [->|Hne].
  - rewrite bool_decide_eq_true_2 by done. cbn [map default from_option id].
    by rewrite num_sum_cons, num_add_assoc.
  - by rewrite bool_decide_eq_false_2 by done.
Qed.

Lemma monthly0_lookup months m :
  default (Fin 0)
    (fold_left (fun (mo : gmap string number) k => <[k := Fin 0]> mo) months ∅ !! m) = Fin 0.
Proof.
  assert (H : forall mo : gmap string number,
             default (Fin 0) (mo !! m) = Fin 0 ->
             default (Fin 0) (fold_left (fun mo k => <[k := Fin 0]> mo) months mo !! m) = Fin 0).
  { induction months as [|k months IH]; intros mo Hmo; [done|].
    cbn [fold_left]. apply IH. rewrite lookup_insert. by case_decide. }
  by apply H.
Qed.

Lemma series_fold mo months r d :
  (fold_left (series_step mo) months (r, d)).2 =
    d ++ running_points (fun m => default (Fin 0) (mo !! m)) r months.
Proof.
  revert r d. induction months as [|m months IH]; intros r d; [by rewrite app_nil_r|].
  cbn [fold_left running_points]. unfold series_step at 2. cbn [fst snd].
  by rewrite IH, <- app_assoc.
Qed.

Lemma running_points_ext b1 b2 r months :
  (forall m, b1 m = b2 m) -> running_points b1 r months = running_points b2 r months.
Proof.
  intros H. revert r. induction months as [|m months IH]; intros r; [done|].
  cbn [running_points]. by rewrite H, IH.
Qed.

Lemma running_points_months b r months :
  sp_month <$> running_points b r months = months.
Proof.
  revert r. induction months as [|m months IH]; intros r; [done|].
  cbn [running_points]. by rewrite fmap_cons, IH.
Qed.

Lemma running_points_lookup b r months i m :
  months !! i = Some m ->
  running_points b r months !! i =
    Some {| sp_month := m; cash := num_add r (num_sum (map b (take (S i) months))) |}.
Proof.
  revert r i. induction months as [|k months IH]; intros r i Hi; [done|].
  cbn [running_points]. destruct i as [|i].
  - injection Hi as ->. cbn. by rewrite num_add_0_r.
  - cbn [lookup list_lookup] in Hi |- *. rewrite (IH _ _ Hi).
    cbn [take map]. by rewrite num_sum_cons, num_add_assoc.
Qed.

Lemma bump_last_snoc x l p :
  bump_last x (l ++ [p]) = l ++ [{| sp_month := sp_month p; cash := num_add (cash p) x |}].
Proof. unfold bump_last. by rewrite reverse_snoc, reverse_involutive. Qed.

Lemma bump_last_months x l : sp_month <$> bump_last x l = sp_month <$> l.
Proof.
  destruct l as [|p l _] using rev_ind; [done|].
  rewrite bump_last_snoc, !fmap_app. done.
Qed.

Lemma bump_last_lookup x l i p :
  l !! i = Some p ->
  bump_last x l !! i =
    Some {| sp_month := sp_month p;
            cash := num_add (cash p) (if decide (S i = length l) then x else Fin 0) |}.
Proof.
  destruct l as [|q l _] using rev_ind; [done|]. intros Hi.
  rewrite bump_last_snoc, length_app. cbn [length].
  destruct (decide (i < length l)%nat) as [Hlt|Hge].
  - rewrite lookup_app_l in Hi |- * by done. rewrite Hi.
    rewrite decide_False by lia. rewrite num_add_0_r. by destruct p.
  - assert (i = length l) as ->.
    { apply lookup_lt_Some in Hi. rewrite length_app in Hi. cbn in Hi. lia. }
    rewrite lookup_app_r in Hi |- * by done. rewrite Nat.sub_diag in *.
    injection Hi as ->. rewrite decide_True by lia. done.
Qed.

Lemma netWorthSeries_unfold localeCompare monthsFrom st first rest :
  sorted_clones localeCompare st = first :: rest ->
  netWorthSeries localeCompare monthsFrom st =
    bump_last (positions_base st)
      (running_points (bucket st) (cash_base st) (monthsFrom (t_date first))).
Proof.
  intros Hs. unfold netWorthSeries. fold (sorted_clones localeCompare st).
  rewrite Hs, <- Hs. fold (positions_base st). f_equal.
  rewrite series_fold. cbn [app]. rewrite fold_left_num_add, num_add_0_l.
  fold (cash_base st). apply running_points_ext. intros m.
  rewrite monthly_fold_lookup, monthly0_lookup, num_add_0_l.
  apply bucket_clones.
Qed.

Lemma running_points_length b r months :
  length (running_points b r months) = length months.
Proof. by rewrite <- (length_fmap sp_month), running_points_months. Qed.

Lemma sorted_clones_nil localeCompare st :
  transactions st = [] -> sorted_clones localeCompare st = [].
Proof. intros H. unfold sorted_clones. by rewrite H. Qed.

Lemma sorted_clones_elem localeCompare st c :
  c ∈ sorted_clones localeCompare st ->
  exists t, t ∈ transactions st /\ c = deepClone_tx t.
Proof.
  unfold sorted_clones. rewrite Array_sort_Permutation.
  intros (t & -> & Ht)%list_elem_of_fmap. by exists t.
Qed.

(** ** Sorting by date *)

Lemma sort_insert_filter {A} (cmp : A -> A -> number) (Q : A -> bool) x l :
  (forall y, Q x = true -> Q y = true -> num_gt (cmp x y) (Fin 0) = false) ->
  List.filter Q (sort_insert cmp x l) = List.filter Q (x :: l).
Proof.
  intros H. induction l as [|y l IH]; [done|].
  cbn [sort_insert]. destruct (num_gt (cmp x y) (Fin 0)) eqn:E; [|done].
  cbn [List.filter] in *. rewrite IH.
  destruct (Q x) eqn:Hx, (Q y) eqn:Hy; try done.
  by rewrite H in E.
Qed.

(** A class of elements the comparator never swaps keeps its order. *)
Lemma Array_sort_filter {A} (cmp : A -> A -> number) (Q : A -> bool) l :
  (forall x y, Q x = true -> Q y = true -> num_gt (cmp x y) (Fin 0) = false) ->
  List.filter Q (Array_sort cmp l) = List.filter Q l.
Proof.
  intros H. induction l as [|x l IH]; [done|].
  cbn [Array_sort foldr]. fold (Array_sort cmp l).
  rewrite sort_insert_filter by (intros y; apply H).
  cbn [List.filter]. by rewrite IH.
Qed.

Lemma StronglySorted_stable_any {A} (le : A -> A -> Prop) l :
  StronglySorted (stable_before le any_order) l -> StronglySorted le l.
Proof.
  induction 1 as [|x l _ IH Hall]; constructor; [done|].
  eapply Forall_impl; [exact Hall|]. by intros y [? _].
Qed.

(** Sorting on a key with a comparison that orders the keys as [le]. *)
Lemma Array_sort_by_key {A} (key : A -> string) le lc (l : list A) :
  orders_as le lc ->
  StronglySorted (fun a b => le (key a) (key b))
                 (Array_sort (fun a b => lc (key a) (key b)) l).
Proof.
  intros (Htrans & Hswap & Hkeep). apply StronglySorted_stable_any.
  apply (Array_sort_sorted _ (fun _ => True)).
  - intros x y z. apply Htrans.
  - intros x y _ _. apply Hkeep.
  - intros x y _ _. apply Hswap.
  - by apply Forall_forall.
  - apply StronglySorted_any.
Qed.

Lemma Array_sort_by_key_desc {A} (key : A -> string) le lc (l : list A) :
  orders_as le lc ->
  StronglySorted (fun a b => le (key b) (key a))
                 (Array_sort (fun a b => lc (key b) (key a)) l).
Proof.
  intros (Htrans & Hswap & Hkeep). apply StronglySorted_stable_any.
  apply (Array_sort_sorted _ (fun _ => True)).
  - intros x y z H1 H2. by apply (Htrans _ _ _ H2 H1).
  - intros x y _ _. apply Hkeep.
  - intros x y _ _. apply Hswap.
  - by apply Forall_forall.
  - apply StronglySorted_any.
Qed.

Lemma orders_as_tie le lc d : orders_as le lc -> num_gt (lc d d) (Fin 0) = false.
Proof.
  intros (_ & Hswap & _). destruct (num_gt (lc d d) (Fin 0)) eqn:E; [|done].
  by destruct (Hswap d d E).
Qed.

Lemma filter_date_clones d l :
  List.filter (fun t => bool_decide (t_date t = d)) (map deepClone_tx l) =
  map deepClone_tx (List.filter (fun t => bool_decide (t_date t = d)) l).
Proof.
  induction l as [|t l IH]; [done|].
  cbn [map List.filter]. change (t_date (deepClone_tx t)) with (t_date t).
  case_bool_decide; cbn [map]; by rewrite IH.
Qed.

(** Comparison by character codes is an order. *)
Lemma Ascii_compare_trans c a1 a2 a3 :
  Ascii.compare a1 a2 = c -> Ascii.compare a2 a3 = c -> Ascii.compare a1 a3 = c.
Proof.
  unfold Ascii.compare. intros H1 H2. destruct c.
  - apply N.compare_eq_iff in H1, H2. apply N.compare_eq_iff. congruence.
  - rewrite N.compare_lt_iff in *. by etrans.
  - rewrite N.compare_gt_iff in *. by etrans.
Qed.

Lemma String_compare_lt_trans s1 s2 s3 :
  String.compare s1 s2 = Lt -> String.compare s2 s3 = Lt -> String.compare s1 s3 = Lt.
Proof.
  revert s2 s3. induction s1 as [|a1 s1 IH]; intros [|a2 s2] [|a3 s3]; cbn; try done.
  destruct (Ascii.compare a1 a2) eqn:E12; try done;
    destruct (Ascii.compare a2 a3) eqn:E23; try done; intros H1 H2.
  - rewrite (Ascii_compare_trans Eq _ _ _ E12 E23). by eapply IH.
  - apply Ascii.compare_eq_iff in E12 as ->. by rewrite E23.
  - apply Ascii.compare_eq_iff in E23 as ->. by rewrite E12.
  - by rewrite (Ascii_compare_trans Lt _ _ _ E12 E23).
Qed.

Lemma code_compare_orders : orders_as code_le code_compare.
Proof.
  unfold orders_as, code_le, code_compare, String.leb. split_and!.
  - intros x y z.
    destruct (String.compare x y) eqn:E1; try done;
      destruct (String.compare y z) eqn:E2; try done; intros _ _.
    + apply String.compare_eq_iff in E1 as ->. by rewrite E2.
    + apply String.compare_eq_iff in E1 as ->. by rewrite E2.
    + apply String.compare_eq_iff in E2 as <-. by rewrite E1.
    + by rewrite (String_compare_lt_trans _ _ _ E1 E2).
  - intros x y. rewrite (String.compare_antisym x y).
    destruct (String.compare y x); cbn [CompOpp]; by intros ?.
  - intros x y. by destruct (String.compare x y).
Qed.

(** ** [TransactionsView] *)

(** X23: When the locale orders dates, the table lists the copies of all
    transactions, latest date first, and transactions of one date in the
    order in which they were entered. *)
Theorem byDate_newest_first localeCompare le st :
  orders_as le localeCompare ->
  byDate localeCompare st ≡ₚ map deepClone_tx (transactions st) /\
  StronglySorted (fun a b => le (t_date b) (t_date a)) (byDate localeCompare st) /\
  forall d,
    List.filter (fun t => bool_decide (t_date t = d)) (byDate localeCompare st) =
    map deepClone_tx (List.filter (fun t => bool_decide (t_date t = d)) (transactions st)).
Proof.
  intros Hord. unfold byDate. split_and!.
  - apply Array_sort_Permutation.
  - by apply (Array_sort_by_key_desc t_date).
  - intros d. rewrite Array_sort_filter, filter_date_clones; [done|].
    intros x y ->%bool_decide_eq_true_1 ->%bool_decide_eq_true_1.
    by eapply orders_as_tie.
Qed.

Lemma byDate_newest_first_witness :
  orders_as code_le code_compare /\
  byDate code_compare three_dates = map deepClone_tx [tx_mar; tx_mar_late; tx_jan] /\
  StronglySorted (fun a b => code_le (t_date b) (t_date a))
                 (byDate code_compare three_dates).
Proof.
  split; [exact code_compare_orders|]. split; [by vm_compute|].
  exact (proj1 (proj2 (byDate_newest_first code_compare code_le three_dates
                         code_compare_orders))).
Defined.

(** ** [ReportsView]: the order of the rows *)

(** X24: When the locale orders month labels, the rows of the monthly report
    come in ascending order of their month. *)
Theorem monthly_ascending localeCompare le st :
  orders_as le localeCompare ->
  StronglySorted (fun r1 r2 => le (rr_month r1) (rr_month r2)) (monthly localeCompare st).
Proof.
  intros Hord. unfold monthly.
  pose proof (Array_sort_by_key (fst : string * MonthRow -> string) le localeCompare
                (monthlyRows st) Hord) as Hs.
  induction Hs as [|e l _ IH Hall]; cbn [map]; constructor; [done|].
  apply Forall_forall. intros r (e' & -> & He')%list_elem_of_fmap.
  rewrite Forall_forall in Hall. by apply Hall.
Qed.

Lemma monthly_ascending_witness :
  orders_as code_le code_compare /\
  rr_month <$> monthly code_compare three_dates = ["2025-01"; "2025-03"] /\
  StronglySorted (fun r1 r2 => code_le (rr_month r1) (rr_month r2))
                 (monthly code_compare three_dates).
Proof.
  split; [exact code_compare_orders|]. split; [by vm_compute|].
  exact (monthly_ascending code_compare code_le three_dates code_compare_orders).
Defined.

(** ** [netWorthSeries]: where the series starts *)

(** X25: When the locale orders dates, the transaction whose date starts the
    net-worth series is dated no later than any transaction, and among
    the transactions of that date it is the one entered first. *)
Theorem netWorthSeries_starts_earliest localeCompare le st first rest :
  orders_as le localeCompare ->
  sorted_clones localeCompare st = first :: rest ->
  (forall t, t ∈ transactions st -> le (t_date first) (t_date t)) /\
  exists t,
    head (List.filter (fun t => bool_decide (t_date t = t_date first)) (transactions st))
      = Some t /\
    first = deepClone_tx t.
Proof.
  intros Hord Hs. split.
  - intros t Ht.
    pose proof (Array_sort_by_key t_date le localeCompare
                  (map deepClone_tx (transactions st)) Hord) as Hsorted.
    fold (sorted_clones localeCompare st) in Hsorted. rewrite Hs in Hsorted.
    apply StronglySorted_inv in Hsorted as [_ Hall]. rewrite Forall_forall in Hall.
    assert (Hin : deepClone_tx t ∈ first :: rest).
    { rewrite <- Hs. unfold sorted_clones. rewrite Array_sort_Permutation.
      apply list_elem_of_fmap. by exists t. }
    apply elem_of_cons in Hin as [<-|Hin].
    + pose proof (orders_as_tie le localeCompare (t_date t) Hord) as Htie.
      destruct Hord as (_ & _ & Hkeep). by apply Hkeep.
    + by apply (Hall _ Hin).
  - assert (Hf : List.filter (fun t => bool_decide (t_date t = t_date first))
                             (sorted_clones localeCompare st)
                 = List.filter (fun t => bool_decide (t_date t = t_date first))
                               (map deepClone_tx (transactions st))).
    { apply Array_sort_filter.
      intros x y ->%bool_decide_eq_true_1 Hy%bool_decide_eq_true_1. rewrite Hy.
      by eapply orders_as_tie. }
    rewrite Hs, filter_date_clones in Hf. cbn [List.filter] in Hf.
    rewrite bool_decide_eq_true_2 in Hf by done.
    destruct (List.filter _ (transactions st)) as [|t l]; [discriminate Hf|].
    exists t. split; [done|]. cbn [map] in Hf. by injection Hf as -> _.
Qed.

Lemma netWorthSeries_starts_earliest_witness :
  orders_as code_le code_compare /\
  sorted_clones code_compare three_dates = map deepClone_tx [tx_jan; tx_mar; tx_mar_late] /\
  forall t, t ∈ transactions three_dates -> code_le "2025-01-01" (t_date t).
Proof.
  split; [exact code_compare_orders|].
  assert (Hs : sorted_clones code_compare three_dates =
               deepClone_tx tx_jan :: map deepClone_tx [tx_mar; tx_mar_late])
    by (by vm_compute).
  split; [exact Hs|].
  exact (proj1 (netWorthSeries_starts_earliest code_compare code_le three_dates _ _
                  code_compare_orders Hs)).
Defined.

(** ** The account buttons of the goal dialog *)

(** X26: A click on the button of an account links it when it was not linked
    and unlinks it when it was, leaves the other linked accounts as they
    were, never introduces a repetition, and a second click on a freshly
    linked account restores the list. *)
Theorem click_account_toggles id ids :
  (id ∈ click_account id ids <-> id ∉ ids) /\
  (forall x, x ≠ id -> x ∈ click_account id ids <-> x ∈ ids) /\
  (NoDup ids -> NoDup (click_account id ids)) /\
  (id ∉ ids -> click_account id (click_account id ids) = ids).
Proof.
  unfold click_account, toggle_account. split_and!.
  - case_bool_decide as Hin.
    + rewrite elem_of_List_filter, bool_decide_eq_true. tauto.
    + rewrite elem_of_app, list_elem_of_singleton. tauto.
  - intros x Hx. case_bool_decide as Hin.
    + rewrite elem_of_List_filter, bool_decide_eq_true. tauto.
    + rewrite elem_of_app, list_elem_of_singleton. tauto.
  - intros Hnd. case_bool_decide as Hin.
    + clear Hin. induction Hnd as [|x l Hx Hnd IH]; [constructor|].
      cbn [List.filter]. case_bool_decide; [|done].
      constructor; [|done]. rewrite elem_of_List_filter. tauto.
    + apply NoDup_app. split_and!; [done| |apply NoDup_singleton].
      intros x Hx ->%list_elem_of_singleton. done.
  - intros Hnin. rewrite (bool_decide_eq_false_2 _ Hnin).
    rewrite bool_decide_eq_true_2 by (apply elem_of_app; right; apply list_elem_of_here).
    rewrite List.filter_app. cbn [List.filter].
    rewrite bool_decide_eq_false_2 by (by intros ?).
    rewrite app_nil_r. apply List_filter_all.
    intros x Hx. apply bool_decide_eq_true_2. by intros ->.
Qed.

(** * The engine in binary64: properties *)

Section Binary64.
Import B64.

(** ** Dictionaries *)

Lemma obj_get_set_eq (o : gmap string fval) k v :
  obj_get (obj_set o k v) k = stored k (obj_get o k) v.
Proof.
  unfold obj_get, obj_set, stored. case_bool_decide; [done|].
  by rewrite lookup_insert_eq.
Qed.

Lemma obj_get_set_ne (o : gmap string fval) k k' v :
  k ≠ k' -> obj_get (obj_set o k v) k' = obj_get o k'.
Proof.
  intros Hne. unfold obj_get, obj_set. case_bool_decide; [done|].
  by rewrite lookup_insert_ne.
Qed.

(** ** [cashFlows] key by key *)

Lemma cashFlows_step_on (flows : gmap string fval) t :
  obj_get (cashFlows_step flows t) (t_accountId t) = key_step (obj_get flows (t_accountId t)) t.
Proof.
  unfold cashFlows_step, key_step.
  destruct (falsy_val (obj_get flows (t_accountId t))),
           (is_credit (t_type t)), (is_debit (t_type t));
    by rewrite ?obj_get_set_eq.
Qed.

Lemma cashFlows_step_off (flows : gmap string fval) t k :
  t_accountId t ≠ k -> obj_get (cashFlows_step flows t) k = obj_get flows k.
Proof.
  intros Hne. unfold cashFlows_step.
  destruct (falsy_val (obj_get flows (t_accountId t))),
           (is_credit (t_type t)), (is_debit (t_type t));
    by rewrite ?obj_get_set_ne.
Qed.

(** After the loop a key holds what its own transactions, in their
    order, make of what it held before. *)
Lemma fold_cashFlows_step_get txs (flows : gmap string fval) k :
  obj_get (fold_left cashFlows_step txs flows) k =
  fold_left key_step (txs_on k txs) (obj_get flows k).
Proof.
  revert flows. induction txs as [|t txs IH]; intros flows; [done|].
  cbn [fold_left txs_on List.filter]. fold (txs_on k txs). rewrite IH.
  case_bool_decide as Hk.
  - subst k. cbn [fold_left]. by rewrite cashFlows_step_on.
  - by rewrite cashFlows_step_off.
Qed.

Lemma cashFlows_init_get accs k :
  obj_get (cashFlows_init accs) k =
  inherited k (if bool_decide (k = "__proto__") then None else VNum <$> opening_under k accs).
Proof.
  unfold cashFlows_init, opening_under.
  induction accs as [|a accs IH] using rev_ind.
  - cbn. by case_bool_decide.
  - rewrite fold_left_app. cbn [fold_left]. rewrite last_filter_snoc.
    destruct (decide (a_id a = k)) as [<-|Hne].
    + rewrite obj_get_set_eq, (bool_decide_eq_true_2 (a_id a = a_id a)) by done.
      unfold stored. case_bool_decide as Hp; [|done].
      exact IH.
    + rewrite obj_get_set_ne, (bool_decide_eq_false_2 (a_id a = k)) by done. apply IH.
Qed.

Lemma key_step_proto v t : t_accountId t = "__proto__" -> key_step v t = v.
Proof.
  intros Hk. unfold key_step, stored. rewrite Hk, bool_decide_eq_true_2 by done.
  by destruct (falsy_val v), (is_credit (t_type t)), (is_debit (t_type t)).
Qed.

Lemma key_step_num x t :
  t_accountId t ≠ "__proto__" -> key_step (Some (VNum x)) t = Some (VNum (own_step x t)).
Proof.
  intros Hk. unfold key_step, own_step, stored. rewrite bool_decide_eq_false_2 by done.
  cbn [falsy_val]. by destruct (falsy x), (is_credit (t_type t)), (is_debit (t_type t)).
Qed.

Lemma fold_key_step_num k l x :
  k ≠ "__proto__" -> Forall (fun t => t_accountId t = k) l ->
  fold_left key_step l (Some (VNum x)) = Some (VNum (fold_left own_step l x)).
Proof.
  intros Hk Hl. revert x. induction Hl as [|t l Ht _ IH]; intros x; [done|].
  cbn [fold_left]. rewrite key_step_num by congruence. apply IH.
Qed.

Lemma fold_key_step_proto l v :
  Forall (fun t => t_accountId t = "__proto__") l -> fold_left key_step l v = v.
Proof.
  induction 1 as [|t l Ht _ IH]; [done|].
  cbn [fold_left]. by rewrite key_step_proto.
Qed.

Lemma txs_on_Forall k txs : Forall (fun t => t_accountId t = k) (txs_on k txs).
Proof.
  apply Forall_forall. intros t [_ Ht]%elem_of_List_filter.
  by apply bool_decide_eq_true_1 in Ht.
Qed.

(** With distinct ids the loop over the accounts leaves under the id of
    an account its own opening balance. *)
Lemma opening_under_NoDup accs a :
  NoDup (a_id <$> accs) -> a ∈ accs ->
  opening_under (a_id a) accs = Some (ensureNumber (a_openingBalance a)).
Proof.
  unfold opening_under. intros Hnd Hin.
  assert (last (List.filter (fun b => bool_decide (a_id b = a_id a)) accs) = Some a) as ->;
    [|done].
  induction accs as [|b accs IH] using rev_ind; [by apply elem_of_nil in Hin|].
  rewrite fmap_app in Hnd. apply NoDup_app in Hnd as (Hnd & Hdisj & _).
  rewrite last_filter_snoc. apply elem_of_app in Hin as [Hin|Hin].
  - rewrite bool_decide_eq_false_2; [by apply IH|].
    intros Heq. apply (Hdisj (a_id a)).
    + apply list_elem_of_fmap. by exists a.
    + rewrite <- Heq. cbn. apply list_elem_of_here.
  - apply list_elem_of_singleton in Hin as ->. by rewrite bool_decide_eq_true_2.
Qed.

(** The value the loops leave under a key that is not ["__proto__"] and
    on which an account opened with [x]. *)
Lemma cashFlows_get_account accs txs k x :
  k ≠ "__proto__" -> opening_under k accs = Some x ->
  obj_get (cashFlows accs txs) k = Some (VNum (fold_left own_step (txs_on k txs) x)).
Proof.
  intros Hk Hx. unfold cashFlows.
  rewrite fold_cashFlows_step_get, cashFlows_init_get, Hx.
  rewrite bool_decide_eq_false_2 by done. cbn [fmap option_fmap option_map inherited].
  apply (fold_key_step_num k); [done | apply txs_on_Forall].
Qed.

Lemma cashFlows_get_proto accs txs :
  obj_get (cashFlows accs txs) "__proto__" = Some VOther.
Proof.
  unfold cashFlows.
  rewrite fold_cashFlows_step_get, cashFlows_init_get.
  rewrite (fold_key_step_proto _ _ (txs_on_Forall "__proto__" txs)). done.
Qed.

Lemma ensureNumber_val_num x : ensureNumber_val (Some (VNum x)) = ensureNumber (JNum x).
Proof. done. Qed.

(** C1: the balance of an account whose id is ["__proto__"] is 0.  The
    balance of any other account, when the ids are distinct, is what the
    transactions of the account, taken in the order of the list, make of
    its opening balance: before each of them a running value that is 0
    or NaN becomes 0, then [amt * s] is added for a Deposit, Income or
    Sell and subtracted for a Withdraw, Expense or Buy, each operation
    rounded to binary64; the result is read through [ensureNumber].  An
    account without a transaction of its own has its opening balance,
    read through [ensureNumber]. *)
Theorem C1_balance_per_account accs txs a :
  a ∈ accs ->
  (a_id a = "__proto__" -> balance_of (cashFlows accs txs) a = zero) /\
  (a_id a ≠ "__proto__" -> NoDup (a_id <$> accs) ->
   balance_of (cashFlows accs txs) a =
     ensureNumber (JNum (fold_left own_step (txs_on (a_id a) txs)
                                   (ensureNumber (a_openingBalance a)))) /\
   (txs_on (a_id a) txs = [] ->
    balance_of (cashFlows accs txs) a = ensureNumber (a_openingBalance a))).
Proof.
  intros Hin. split.
  - intros Hk. unfold balance_of. by rewrite Hk, cashFlows_get_proto.
  - intros Hk Hnd.
    assert (balance_of (cashFlows accs txs) a =
            ensureNumber (JNum (fold_left own_step (txs_on (a_id a) txs)
                                          (ensureNumber (a_openingBalance a))))) as Hb.
    { unfold balance_of.
      by rewrite (cashFlows_get_account accs txs (a_id a) _ Hk (opening_under_NoDup _ _ Hnd Hin)). }
    split; [exact Hb|]. intros Hnone. rewrite Hb, Hnone. cbn [fold_left].
    unfold ensureNumber, ensureNumber_or. cbn [Number].
    by destruct (Number_isFinite (Number (a_openingBalance a))) eqn:E; rewrite ?E.
Qed.

Lemma C1_balance_per_account_witness :
  account "a1" "Cash" 2000000 ∈ [account "a1" "Cash" 2000000] /\
  a_id (account "a1" "Cash" 2000000) ≠ "__proto__" /\
  NoDup (a_id <$> [account "a1" "Cash" 2000000]) /\
  balance_of (cashFlows [account "a1" "Cash" 2000000] [deposit "a1" 1000000])
             (account "a1" "Cash" 2000000) = of_Z 3000000.
Proof.
  assert (Hin : account "a1" "Cash" 2000000 ∈ [account "a1" "Cash" 2000000])
    by apply list_elem_of_here.
  assert (Hk : a_id (account "a1" "Cash" 2000000) ≠ "__proto__") by done.
  assert (Hnd : NoDup (a_id <$> [account "a1" "Cash" 2000000])) by apply NoDup_singleton.
  split; [exact Hin|]. split; [exact Hk|]. split; [exact Hnd|].
  destruct (C1_balance_per_account [account "a1" "Cash" 2000000] [deposit "a1" 1000000]
              (account "a1" "Cash" 2000000) Hin) as [_ H].
  destruct (H Hk Hnd) as [-> _]. vm_compute. reflexivity.
Defined.

(** Three inputs on which the balance is not the opening balance plus
    the signed amounts: two deposits of 1 on an opening balance of 2^53
    are lost to rounding; of two accounts with one id the first shows the
    opening balance of the second; and an account whose id is
    ["__proto__"] shows 0. *)
Lemma C1_counterexamples :
  balance_of (cashFlows [account "a" "Cash" (2 ^ 53)] [deposit "a" 1; deposit "a" 1])
             (account "a" "Cash" (2 ^ 53)) = of_Z (2 ^ 53) /\
  ~ (B2Q (of_Z (2 ^ 53)) == inject_Z (2 ^ 53 + 1 + 1))%Q /\
  balance_of (cashFlows [account "a" "Cash" 1; account "a" "Stock" 2] [])
             (account "a" "Cash" 1) = of_Z 2 /\
  of_Z 2 ≠ ensureNumber (a_openingBalance (account "a" "Cash" 1)) /\
  balance_of (cashFlows [account "__proto__" "Cash" 12] [])
             (account "__proto__" "Cash" 12) = zero /\
  zero ≠ ensureNumber (a_openingBalance (account "__proto__" "Cash" 12)).
Proof.
  split_and!; try by vm_compute.
Qed.

(** ** Order of the transactions *)

(** C5: two lists of transactions that hold, for every account id, the
    same transactions in the same order yield the same value under every
    key and the same account balances, however the transactions of
    different accounts are interleaved. *)
Theorem C5_balances_order_within_account cfg accs txs1 txs2 :
  (forall k, txs_on k txs1 = txs_on k txs2) ->
  (forall k, obj_get (cashFlows accs txs1) k = obj_get (cashFlows accs txs2) k) /\
  accountBalances cfg accs txs1 = accountBalances cfg accs txs2.
Proof.
  intros Hsame.
  assert (Hget : forall k, obj_get (cashFlows accs txs1) k = obj_get (cashFlows accs txs2) k).
  { intros k. unfold cashFlows. by rewrite !fold_cashFlows_step_get, Hsame. }
  split; [exact Hget|]. unfold accountBalances, balance_of.
  apply map_ext. intros a. by rewrite Hget.
Qed.

Lemma C5_balances_order_within_account_witness :
  (forall k, txs_on k [deposit "a" 1; deposit "b" 2; deposit "a" 3] =
             txs_on k [deposit "b" 2; deposit "a" 1; deposit "a" 3]) /\
  accountBalances krw_settings [account "a" "Cash" 0; account "b" "Cash" 0]
                  [deposit "a" 1; deposit "b" 2; deposit "a" 3] =
  accountBalances krw_settings [account "a" "Cash" 0; account "b" "Cash" 0]
                  [deposit "b" 2; deposit "a" 1; deposit "a" 3].
Proof.
  assert (H : forall k, txs_on k [deposit "a" 1; deposit "b" 2; deposit "a" 3] =
                        txs_on k [deposit "b" 2; deposit "a" 1; deposit "a" 3]).
  { intros k. unfold txs_on. cbn [List.filter deposit t_accountId].
    repeat case_bool_decide; congruence. }
  split; [exact H|].
  exact (proj2 (C5_balances_order_within_account krw_settings
                  [account "a" "Cash" 0; account "b" "Cash" 0] _ _ H)).
Defined.

(** Three deposits of 2^53, 1 and 1 on one account give 2^53 in this
    order and 2^53 + 2 when the large one comes last. *)
Lemma C5_order_counterexample :
  [deposit "a" (2 ^ 53); deposit "a" 1; deposit "a" 1] ≡ₚ
  [deposit "a" 1; deposit "a" 1; deposit "a" (2 ^ 53)] /\
  balance_of (cashFlows [account "a" "Cash" 0]
                        [deposit "a" (2 ^ 53); deposit "a" 1; deposit "a" 1])
             (account "a" "Cash" 0) = of_Z (2 ^ 53) /\
  balance_of (cashFlows [account "a" "Cash" 0]
                        [deposit "a" 1; deposit "a" 1; deposit "a" (2 ^ 53)])
             (account "a" "Cash" 0) = of_Z (2 ^ 53 + 2) /\
  of_Z (2 ^ 53) ≠ of_Z (2 ^ 53 + 2).
Proof.
  split_and!; try by vm_compute.
  rewrite (Permutation_app_comm [deposit "a" (2 ^ 53)] [deposit "a" 1; deposit "a" 1]).
  done.
Qed.

(** ** Where NaN cannot arise *)













(** ** Where the engine throws *)





(** ** Allocation *)









(** ** Adding a transaction *)

(** X3: A new transaction changes the value under no other key, so the
    balance of every account with another id stays as it was.  Under its
    own key a running value [x] becomes what one pass of the loop body
    makes of it: [x], or 0 when [x] is 0 or NaN, plus [amt * s] for a
    Deposit, Income or Sell and minus [amt * s] for a Withdraw, Expense
    or Buy, rounded to binary64. *)
Theorem addTransaction_frame uid payload accs txs :
  (forall k, k ≠ t_accountId payload ->
     obj_get (cashFlows accs (addTransaction uid payload txs)) k =
     obj_get (cashFlows accs txs) k) /\
  (forall a, a_id a ≠ t_accountId payload ->
     balance_of (cashFlows accs (addTransaction uid payload txs)) a =
     balance_of (cashFlows accs txs) a) /\
  (forall x, t_accountId payload ≠ "__proto__" ->
     obj_get (cashFlows accs txs) (t_accountId payload) = Some (VNum x) ->
     obj_get (cashFlows accs (addTransaction uid payload txs)) (t_accountId payload) =
     Some (VNum (own_step x payload))).
Proof.
  assert (Hoff : forall k, k ≠ t_accountId payload ->
            obj_get (cashFlows accs (addTransaction uid payload txs)) k =
            obj_get (cashFlows accs txs) k).
  { intros k Hk. unfold cashFlows, addTransaction. rewrite fold_left_app. cbn [fold_left].
    by rewrite cashFlows_step_off by (cbn [t_accountId]; congruence). }
  split_and!.
  - exact Hoff.
  - intros a Ha. unfold balance_of. by rewrite Hoff.
  - intros x Hk Hx. unfold cashFlows, addTransaction in *.
    rewrite fold_left_app. cbn [fold_left].
    set (t := {| t_id := uid; t_date := t_date payload |}).
    rewrite (cashFlows_step_on _ t). cbn [t_accountId t]. rewrite Hx.
    by rewrite key_step_num.
Qed.

End Binary64.
